(** * The media type DSL of goa: [design/dsl/media_type.go]

    A shallow embedding of the media type definition DSL (functions
    [MediaType], [Media], [Reference], [TypeName], [View], [Attributes],
    [Links], [Link] and [CollectionOf]) together with the part of package
    [design] those functions manipulate, followed by the properties of the
    DSL that the specification states.

    Go pointers are locations of a typed store, Go maps that are shared by
    reference (objects) are store cells of their own, the package level
    variables ([design.Design], [Errors], the context stack and
    [mediaTypeCount]) are the fields of [dsl.State], and a run-time panic
    is the [Panic] outcome. *)

From Stdlib Require Import Ascii.
From stdpp Require Import gmap strings list fin_maps pretty sorting.

Open Scope string_scope.

(** ** Outcomes: a Go call either returns or panics *)

Inductive outcome (A : Type) : Type :=
  | Ok (a : A)
  | Panic.
Arguments Ok {A} a.
Arguments Panic {A}.

#[global] Instance outcome_ret : MRet outcome := @Ok.
#[global] Instance outcome_bind : MBind outcome :=
  λ A B f m, match m with Ok a => f a | Panic => Panic end.
#[global] Instance outcome_fmap : FMap outcome :=
  λ A B f m, match m with Ok a => Ok (f a) | Panic => Panic end.

(** Dereferencing a pointer: [nil] (or a location that holds nothing)
    panics. *)
Definition deref {A : Type} (o : option A) : outcome A :=
  match o with Some a => Ok a | None => Panic end.

(** Store locations. *)
Definition loc := nat.

(** ** String helpers ([strings.Index], [strings.Split]) *)

(** [strings.Index(s, "/") != -1] for a one character separator. *)
Fixpoint contains_char (c : ascii) (s : string) : bool :=
  match s with
  | EmptyString => false
  | String a s' => if decide (a = c) then true else contains_char c s'
  end.

(** [strings.Split(s, sep)] for a one character separator: the result is
    never empty, [Split("", sep)] is [[""]]. *)
Fixpoint split_char (c : ascii) (s : string) : list string :=
  match s with
  | EmptyString => [""]
  | String a s' =>
      if decide (a = c) then "" :: split_char c s'
      else match split_char c s' with
           | [] => [String a ""]
           | w :: ws => String a w :: ws
           end
  end.

(** ** Package [design]: the definitions the DSL builds *)

Module design.

(** The kinds of the primitive types. *)
Inductive Kind := BooleanKind | IntegerKind | NumberKind | StringKind | AnyKind.

(** Modelled from the spec: the [DataType] interface of package [design]
    (a semantic type is a scalar, an object of attributes, an array of an
    element, or a reference to a type or media type). An [Object] is a Go
    map, hence a reference to a store cell; an [Array] holds the pointer
    to its element attribute, which may be nil. *)
Inductive DataType :=
  | Primitive (k : Kind)
  | Array (ElemType : option loc)
  | Object (o : loc)
  | UserTypeRef (u : loc)
  | MediaTypeRef (m : loc).

(** A [func()] value. The closures of the user are named by a number and
    run by the interpreter the DSL is given; the closure [CollectionOf]
    builds carries the variables it captures. *)
Inductive DSLFunc :=
  | UserFunc (id : nat)
  | CollectionFunc (typeName : string) (m : loc) (dsl : list nat).

(** Modelled from the spec: [design.AttributeDefinition], a node of the
    attribute tree, with the fields the DSL touches. [Type_] and
    [Reference] are interface values, [None] is the nil interface. *)
Record AttributeDefinition := {
  Type_ : option DataType;
  Reference : option DataType;
  View : string
}.

(** Modelled from the spec: [design.UserTypeDefinition]; it embeds a
    pointer to its attribute definition. *)
Record UserTypeDefinition := {
  AttributeDefinition_ : option loc;
  TypeName : string;
  DSL : option DSLFunc
}.

(** Modelled from the spec: [design.LinkDefinition]. *)
Record LinkDefinition := {
  Link_Name : string;
  Link_View : string;
  Link_Parent : loc
}.

(** Modelled from the spec: [design.ViewDefinition]; it embeds a pointer
    to the attribute definition that lists the rendered attributes. *)
Record ViewDefinition := {
  View_AttributeDefinition : option loc;
  View_Name : string;
  View_Parent : loc
}.

(** Modelled from the spec: [design.MediaTypeDefinition]. The embedded
    user type definition is owned by the media type and is kept inline;
    [Links] and [Views] are Go maps, [None] is the nil map. *)
Record MediaTypeDefinition := {
  UserTypeDefinition_ : UserTypeDefinition;
  Identifier : string;
  Links : option (gmap string LinkDefinition);
  Views : option (gmap string ViewDefinition)
}.

(** Modelled from the spec: [design.ResponseDefinition]. *)
Record ResponseDefinition := {
  Status : Z;
  MediaType : string
}.

(** Modelled from the spec: [design.APIDefinition], the owner of the
    registry of media types (a Go map, nil until first use). *)
Record APIDefinition := {
  MediaTypes : option (gmap string loc)
}.

(** The store: one heap per type of cell. *)
Record Heap := {
  attrs : gmap loc AttributeDefinition;
  objs : gmap loc (gmap string loc);
  utypes : gmap loc UserTypeDefinition;
  mtypes : gmap loc MediaTypeDefinition;
  resps : gmap loc ResponseDefinition
}.

Definition empty_heap : Heap :=
  {| attrs := ∅; objs := ∅; utypes := ∅; mtypes := ∅; resps := ∅ |}.

Definition set_attrs (f : gmap loc AttributeDefinition → gmap loc AttributeDefinition)
    (h : Heap) : Heap :=
  {| attrs := f (attrs h); objs := objs h; utypes := utypes h;
     mtypes := mtypes h; resps := resps h |}.

Definition set_objs (f : gmap loc (gmap string loc) → gmap loc (gmap string loc))
    (h : Heap) : Heap :=
  {| attrs := attrs h; objs := f (objs h); utypes := utypes h;
     mtypes := mtypes h; resps := resps h |}.

Definition set_utypes (f : gmap loc UserTypeDefinition → gmap loc UserTypeDefinition)
    (h : Heap) : Heap :=
  {| attrs := attrs h; objs := objs h; utypes := f (utypes h);
     mtypes := mtypes h; resps := resps h |}.

Definition set_mtypes (f : gmap loc MediaTypeDefinition → gmap loc MediaTypeDefinition)
    (h : Heap) : Heap :=
  {| attrs := attrs h; objs := objs h; utypes := utypes h;
     mtypes := f (mtypes h); resps := resps h |}.

Definition set_resps (f : gmap loc ResponseDefinition → gmap loc ResponseDefinition)
    (h : Heap) : Heap :=
  {| attrs := attrs h; objs := objs h; utypes := utypes h;
     mtypes := mtypes h; resps := f (resps h) |}.

(** Field updates of a media type. *)
Definition with_Links (l : option (gmap string LinkDefinition))
    (m : MediaTypeDefinition) : MediaTypeDefinition :=
  {| UserTypeDefinition_ := UserTypeDefinition_ m; Identifier := Identifier m;
     Links := l; Views := Views m |}.

Definition with_Views (v : option (gmap string ViewDefinition))
    (m : MediaTypeDefinition) : MediaTypeDefinition :=
  {| UserTypeDefinition_ := UserTypeDefinition_ m; Identifier := Identifier m;
     Links := Links m; Views := v |}.

Definition with_UserType (u : UserTypeDefinition)
    (m : MediaTypeDefinition) : MediaTypeDefinition :=
  {| UserTypeDefinition_ := u; Identifier := Identifier m;
     Links := Links m; Views := Views m |}.

Definition with_TypeName (n : string) (u : UserTypeDefinition) : UserTypeDefinition :=
  {| AttributeDefinition_ := AttributeDefinition_ u; TypeName := n; DSL := DSL u |}.

Definition with_AttributeDefinition (a : option loc)
    (u : UserTypeDefinition) : UserTypeDefinition :=
  {| AttributeDefinition_ := a; TypeName := TypeName u; DSL := DSL u |}.

Definition with_Reference (t : option DataType)
    (a : AttributeDefinition) : AttributeDefinition :=
  {| Type_ := Type_ a; Reference := t; View := View a |}.

Definition with_View (v : string) (a : AttributeDefinition) : AttributeDefinition :=
  {| Type_ := Type_ a; Reference := Reference a; View := v |}.

Definition with_MediaType (i : string) (r : ResponseDefinition) : ResponseDefinition :=
  {| Status := Status r; MediaType := i |}.

(** [a.Type] read through the pointer [a]: a nil pointer panics. The
    result may be the nil interface. *)
Definition attrType (h : Heap) (a : option loc) : outcome (option DataType) :=
  l ← deref a; d ← deref (attrs h !! l); Ok (Type_ d).

(** [u.Type] of a user type, as the receiver of a method call: the nil
    interface panics. *)
Definition userType (h : Heap) (u : UserTypeDefinition) : outcome DataType :=
  t ← attrType h (AttributeDefinition_ u); deref t.

(** Modelled from the spec: the methods [IsObject], [IsArray], [ToObject]
    and [ToArray] of a user type or media type delegate to the type of
    its attribute definition. [underlying] follows these delegations down
    to a primitive, array or object. A chain longer than the number of
    type definitions in the store goes through one of them twice: the Go
    recursion never returns and the run aborts, which is [Panic] here. *)
Fixpoint underlying (fuel : nat) (h : Heap) (t : DataType) : outcome DataType :=
  match t with
  | UserTypeRef u =>
      match fuel with
      | O => Panic
      | S fuel' =>
          d ← deref (utypes h !! u); t' ← userType h d; underlying fuel' h t'
      end
  | MediaTypeRef m =>
      match fuel with
      | O => Panic
      | S fuel' =>
          d ← deref (mtypes h !! m);
          t' ← userType h (UserTypeDefinition_ d); underlying fuel' h t'
      end
  | _ => Ok t
  end.

Definition depth (h : Heap) : nat := S (size (utypes h) + size (mtypes h)).

Definition IsObject (h : Heap) (t : DataType) : outcome bool :=
  t' ← underlying (depth h) h t;
  Ok (match t' with Object _ => true | _ => false end).

Definition IsArray (h : Heap) (t : DataType) : outcome bool :=
  t' ← underlying (depth h) h t;
  Ok (match t' with Array _ => true | _ => false end).

(** [ToObject] returns the object, or nil when the type is not one. *)
Definition ToObject (h : Heap) (t : DataType) : outcome (option loc) :=
  t' ← underlying (depth h) h t;
  Ok (match t' with Object o => Some o | _ => None end).

(** [ToArray] returns the array (here: its [ElemType] pointer), or nil
    when the type is not one. *)
Definition ToArray (h : Heap) (t : DataType) : outcome (option (option loc)) :=
  t' ← underlying (depth h) h t;
  Ok (match t' with Array e => Some e | _ => None end).

(** [extends h h']: the store [h'] holds the attribute definitions of
    [h] and possibly more, and the same user types and media types with
    the same attribute definition, type name and closure. *)
Definition extends (h h' : Heap) : Prop :=
  utypes h' = utypes h
  ∧ dom (mtypes h') = dom (mtypes h)
  ∧ (∀ m d, mtypes h !! m = Some d →
       ∃ d', mtypes h' !! m = Some d' ∧ UserTypeDefinition_ d' = UserTypeDefinition_ d)
  ∧ attrs h ⊆ attrs h'.

(** [mt.Type] of the media type at [m], as the receiver of a method. *)
Definition mediaTypeType (h : Heap) (m : loc) : outcome DataType :=
  d ← deref (mtypes h !! m); userType h (UserTypeDefinition_ d).

(** Allocation of a new cell: a location no cell of that heap uses. *)
Definition new_attr (a : AttributeDefinition) (h : Heap) : Heap * loc :=
  let l := fresh (dom (attrs h)) in (set_attrs (insert l a) h, l).

Definition new_obj (o : gmap string loc) (h : Heap) : Heap * loc :=
  let l := fresh (dom (objs h)) in (set_objs (insert l o) h, l).

Definition new_mtype (m : MediaTypeDefinition) (h : Heap) : Heap * loc :=
  let l := fresh (dom (mtypes h)) in (set_mtypes (insert l m) h, l).

(** [&design.AttributeDefinition{}]. *)
Definition zero_attr : AttributeDefinition :=
  {| Type_ := None; Reference := None; View := "" |}.

(** Modelled from the spec: [design.NewMediaTypeDefinition(name,
    identifier, dsl)] allocates a media type whose root attribute is an
    empty object of attributes, with no links and no views yet. *)
Definition NewMediaTypeDefinition (name identifier : string) (dsl : option DSLFunc)
    (h : Heap) : Heap * loc :=
  let '(h1, o) := new_obj ∅ h in
  let '(h2, a) := new_attr {| Type_ := Some (Object o); Reference := None; View := "" |} h1 in
  new_mtype {| UserTypeDefinition_ :=
                 {| AttributeDefinition_ := Some a; TypeName := name; DSL := dsl |};
               Identifier := identifier; Links := None; Views := None |} h2.

End design.

(** ** Package [dsl]: the state of a run and the DSL functions *)

Module dsl.

(** The diagnostics [ReportError] records, one constructor per message of
    [media_type.go], with the values the message is formatted with. *)
Inductive Diagnostic :=
  | InvalidIdentifierError (identifier err : string)
      (* "invalid media type identifier %#v: %s" *)
  | MediaTypeDefinedTwice (identifier : string)
      (* "media type %#v is defined twice" *)
  | InvalidMediaValue (val : string)
      (* "media type must be a string or a pointer to MediaTypeDefinition, got %#v" *)
  | ViewOnNonObject
      (* "cannot define view on non object and non collection media types" *)
  | MultipleViewDefinitions (name typeName : string)
      (* "multiple definitions for view %#v in media type %#v" *)
  | UnknownViewError (name : string)
      (* "unknown view %#v" *)
  | UnknownAttributeError (n : string)
      (* "unknown attribute %#v" *)
  | DuplicateLink (name : string)
      (* "duplicate definition for link %#v" *)
  | InvalidLinkSyntaxError (name : string)
      (* "invalid syntax in Link definition for %#v, allowed syntax is ..." *)
  | IncompatibleDSL (caller : string).
      (* "invalid use of %s": a DSL function used in the wrong context *)

#[global] Instance Diagnostic_eq_dec : EqDecision Diagnostic.
Proof. solve_decision. Defined.

(** The names the specification gives to the diagnostics. *)
Inductive ErrorKind :=
  | InvalidIdentifier | DuplicateDefinition | UnsupportedViewTarget
  | UnknownAttribute | UnknownView | InvalidLinkSyntax | InvalidArgument
  | InvalidUse.

Definition kind (d : Diagnostic) : ErrorKind :=
  match d with
  | InvalidIdentifierError _ _ => InvalidIdentifier
  | MediaTypeDefinedTwice _ => DuplicateDefinition
  | InvalidMediaValue _ => InvalidArgument
  | ViewOnNonObject => UnsupportedViewTarget
  | MultipleViewDefinitions _ _ => DuplicateDefinition
  | UnknownViewError _ => UnknownView
  | UnknownAttributeError _ => UnknownAttribute
  | DuplicateLink _ => DuplicateDefinition
  | InvalidLinkSyntaxError _ => InvalidLinkSyntax
  | IncompatibleDSL _ => InvalidUse
  end.

(** The definition a DSL block runs against (an element of the context
    stack). [OtherCtx] stands for the definitions that [media_type.go]
    never asks for (API, resource, action, ...). *)
Inductive DSLDefinition :=
  | MediaTypeCtx (m : loc)
  | UserTypeCtx (u : loc)
  | AttributeCtx (a : loc)
  | ResponseCtx (r : loc)
  | OtherCtx.

(** The package level variables and the store. *)
Record State := {
  Design : option design.APIDefinition;   (* design.Design, nil at start *)
  heap : design.Heap;
  Errors : list Diagnostic;
  ctxStack : list DSLDefinition;          (* the current context is the last *)
  mediaTypeCount : Z                      (* a Go int *)
}.

Definition set_Design (d : option design.APIDefinition) (st : State) : State :=
  {| Design := d; heap := heap st; Errors := Errors st; ctxStack := ctxStack st;
     mediaTypeCount := mediaTypeCount st |}.

Definition set_heap (f : design.Heap → design.Heap) (st : State) : State :=
  {| Design := Design st; heap := f (heap st); Errors := Errors st;
     ctxStack := ctxStack st; mediaTypeCount := mediaTypeCount st |}.

Definition set_Errors (e : list Diagnostic) (st : State) : State :=
  {| Design := Design st; heap := heap st; Errors := e; ctxStack := ctxStack st;
     mediaTypeCount := mediaTypeCount st |}.

Definition set_ctxStack (c : list DSLDefinition) (st : State) : State :=
  {| Design := Design st; heap := heap st; Errors := Errors st; ctxStack := c;
     mediaTypeCount := mediaTypeCount st |}.

Definition set_mediaTypeCount (n : Z) (st : State) : State :=
  {| Design := Design st; heap := heap st; Errors := Errors st;
     ctxStack := ctxStack st; mediaTypeCount := n |}.

(** The state of a process that has not used the DSL yet. *)
Definition initial : State :=
  {| Design := None; heap := design.empty_heap; Errors := []; ctxStack := [];
     mediaTypeCount := 0 |}.

(** The registry of media types: [design.Design.MediaTypes], read as a
    map (a nil pointer or a nil map holds nothing). *)
Definition registry (st : State) : gmap string loc :=
  default ∅ (Design st ≫= design.MediaTypes).

(** The media type stored at [m]. *)
Definition mediaType (st : State) (m : loc) : option design.MediaTypeDefinition :=
  design.mtypes (heap st) !! m.

(** The link and the view a media type holds under a name, and the media
    type of a response. *)
Definition link (st : State) (m : loc) (name : string) : option design.LinkDefinition :=
  d ← mediaType st m; links ← design.Links d; links !! name.

Definition view (st : State) (m : loc) (name : string) : option design.ViewDefinition :=
  d ← mediaType st m; views ← design.Views d; views !! name.

Definition responseMedia (st : State) (r : loc) : option string :=
  design.MediaType <$> design.resps (heap st) !! r.

(** Arithmetic of the Go type [int] (64 bits, two's complement). *)
Definition wrap_int (z : Z) : Z := ((z + 2 ^ 63) `mod` 2 ^ 64 - 2 ^ 63)%Z.

(** Modelled from the spec: [ReportError] records a diagnostic in the
    process wide collector and returns. *)
Definition ReportError (d : Diagnostic) (st : State) : State :=
  set_Errors (Errors st ++ [d]) st.

(** Modelled from the spec: [InitDesign] creates the design, with no
    registry yet. *)
Definition InitDesign (st : State) : State :=
  set_Design (Some {| design.MediaTypes := None |}) st.

(** Modelled from the spec: the current definition is the last element of
    the context stack, nil when the stack is empty. *)
Definition current (st : State) : option DSLDefinition := last (ctxStack st).

(** Modelled from the spec: [topLevelDefinition(fail)] tells whether no
    definition is being evaluated, and reports the wrong use of the
    calling function otherwise when [fail] is set. *)
Definition topLevelDefinition (failIfNotTopLevel : bool) (caller : string)
    (st : State) : State * bool :=
  let top := bool_decide (ctxStack st = []) in
  (if failIfNotTopLevel && negb top then ReportError (IncompatibleDSL caller) st else st,
   top).

(** Modelled from the spec: [mediaTypeDefinition(fail)] returns the
    current definition when it is a media type. *)
Definition mediaTypeDefinition (failIfNotMT : bool) (caller : string)
    (st : State) : State * option loc :=
  match current st with
  | Some (MediaTypeCtx m) => (st, Some m)
  | _ => (if failIfNotMT then ReportError (IncompatibleDSL caller) st else st, None)
  end.

(** Modelled from the spec: [typeDefinition(fail)], the same for a user
    type. *)
Definition typeDefinition (failIfNotType : bool) (caller : string)
    (st : State) : State * option loc :=
  match current st with
  | Some (UserTypeCtx u) => (st, Some u)
  | _ => (if failIfNotType then ReportError (IncompatibleDSL caller) st else st, None)
  end.

(** Modelled from the spec: [attributeDefinition(fail)], the same for an
    attribute. *)
Definition attributeDefinition (failIfNotAttribute : bool) (caller : string)
    (st : State) : State * option loc :=
  match current st with
  | Some (AttributeCtx a) => (st, Some a)
  | _ => (if failIfNotAttribute then ReportError (IncompatibleDSL caller) st else st, None)
  end.

(** Modelled from the spec: [responseDefinition(fail)], the same for a
    response. *)
Definition responseDefinition (failIfNotResponse : bool) (caller : string)
    (st : State) : State * option loc :=
  match current st with
  | Some (ResponseCtx r) => (st, Some r)
  | _ => (if failIfNotResponse then ReportError (IncompatibleDSL caller) st else st, None)
  end.

(** Modelled from the spec: running a block against a target pushes the
    target on the context stack, runs the block, pops the stack, and
    tells whether the block recorded no diagnostic. *)
Definition executeBlock (body : State → outcome State) (ctx : DSLDefinition)
    (st : State) : outcome (State * bool) :=
  let initCount := length (Errors st) in
  st1 ← body (set_ctxStack (ctxStack st ++ [ctx]) st);
  match ctxStack st1 with
  | [] => Panic
  | _ => let st2 := set_ctxStack (removelast (ctxStack st1)) st1 in
         Ok (st2, bool_decide (length (Errors st2) ≤ initCount)%nat)
  end.

(** Modelled from the spec: [ArrayOf(t)] builds the array type whose
    element is a new attribute of type [t]. *)
Definition ArrayOf (t : design.DataType) (h : design.Heap) : design.Heap * design.DataType :=
  let '(h1, e) :=
    design.new_attr {| design.Type_ := Some t; design.Reference := None;
                       design.View := "" |} h in
  (h1, design.Array (Some e)).

(** A value of type [interface{}] given to [Media]: a pointer to a media
    type (possibly nil), a string, or anything else, kept as its [%#v]
    rendering. *)
Inductive Value :=
  | VMediaType (m : option loc)
  | VString (s : string)
  | VOther (repr : string).

Definition slash : ascii := "/"%char.
Definition dot : ascii := "."%char.

Section DSL.

(** The collaborators of the DSL that live outside the repository: the
    MIME parser and formatter of the Go library ([mime.ParseMediaType]
    returns the media type, its parameters and an error, [None] being
    the nil error), [inflect.Camelize], the closures of the user, and
    the order in which a [range] loop visits the keys of a map. *)
Variable ParseMediaType : string → string * gmap string string * option string.
Variable FormatMediaType : string → gmap string string → string.
Variable Camelize : string → string.
Variable run : nat → State → outcome State.
Variable range_keys : gmap string loc → list string.

(** The canonical form of an identifier, as lines 66-75 of [MediaType]
    compute it. *)
Definition canonical (identifier : string) : string :=
  let '(identifier1, params, _) := ParseMediaType identifier in
  let identifier2 :=
    if contains_char slash identifier1 then identifier1
    else identifier1 ++ "/json" in
  FormatMediaType identifier2 params.

(** Lines 76-78 of [MediaType]: the type name an identifier gives. *)
Definition derivedTypeName (identifier : string) : string :=
  let elems := split_char dot identifier in
  let elems := split_char slash (default "" (last elems)) in
  Camelize (default "" (head elems)).

(** Lines 59-64 of [MediaType]: the design and its registry are created
    on first use. *)
Definition MediaType_init (st : State) : State :=
  let st := if Design st is None then InitDesign st else st in
  match Design st with
  | Some {| design.MediaTypes := None |} =>
      set_Design (Some {| design.MediaTypes := Some ∅ |}) st
  | _ => st
  end.

Definition MediaType (identifier : string) (dsl : option nat)
    (st : State) : State * option loc :=
  let st := MediaType_init st in
  let '(st, top) := topLevelDefinition true "MediaType" st in
  if top then
    let '(identifier1, params, err) := ParseMediaType identifier in
    let st :=
      match err with
      | Some e => ReportError (InvalidIdentifierError identifier1 e) st
      | None => st
      end in
    let identifier :=
      if contains_char slash identifier1 then identifier1
      else identifier1 ++ "/json" in
    let identifier := FormatMediaType identifier params in
    let typeName := derivedTypeName identifier in
    let '(st, typeName) :=
      if decide (typeName = "") then
        let n := wrap_int (mediaTypeCount st + 1) in
        (set_mediaTypeCount n st, "MediaType" ++ pretty n)
      else (st, typeName) in
    match registry st !! identifier with
    | Some _ => (ReportError (MediaTypeDefinedTwice identifier) st, None)
    | None =>
        let '(h, mt) :=
          design.NewMediaTypeDefinition typeName identifier
            (design.UserFunc <$> dsl) (heap st) in
        let st := set_heap (λ _, h) st in
        (set_Design (Some {| design.MediaTypes := Some (<[identifier := mt]> (registry st)) |}) st,
         Some mt)
    end
  else (st, None).

(** Lines 66-82 of [MediaType]: what a call at top level does to the
    state before it looks the identifier up in the registry. The error of
    the parser is recorded, and the counter is used when the identifier
    gives no type name. *)
Definition MediaType_pre (identifier : string) (st : State) : State :=
  let '(identifier1, _, err) := ParseMediaType identifier in
  let st :=
    match err with
    | Some e => ReportError (InvalidIdentifierError identifier1 e) st
    | None => st
    end in
  if decide (derivedTypeName (canonical identifier) = "")
  then set_mediaTypeCount (wrap_int (mediaTypeCount st + 1)) st else st.

Definition Media (val : Value) (st : State) : outcome State :=
  match responseDefinition true "Media" st with
  | (st, Some r) =>
      match val with
      | VMediaType m =>
          l ← deref m;
          d ← deref (mediaType st l);
          rd ← deref (design.resps (heap st) !! r);
          Ok (set_heap (design.set_resps
                (insert r (design.with_MediaType (design.Identifier d) rd))) st)
      | VString identifier =>
          rd ← deref (design.resps (heap st) !! r);
          Ok (set_heap (design.set_resps
                (insert r (design.with_MediaType identifier rd))) st)
      | VOther repr => Ok (ReportError (InvalidMediaValue repr) st)
      end
  | (st, None) => Ok st
  end.

Definition Link (name : string) (view : list string) (st : State) : outcome State :=
  match mediaTypeDefinition true "Link" st with
  | (st, Some mt) =>
      d ← deref (mediaType st mt);
      match design.Links d ≫= (λ ls, ls !! name) with
      | Some _ => Ok (ReportError (DuplicateLink name) st)
      | None =>
          let links := default ∅ (design.Links d) in
          let st :=
            if bool_decide (1 < length view)%nat
            then ReportError (InvalidLinkSyntaxError name) st else st in
          let link :=
            {| design.Link_Name := name;
               design.Link_View := default "link" (head view);
               design.Link_Parent := mt |} in
          Ok (set_heap (design.set_mtypes
                (insert mt (design.with_Links (Some (<[name := link]> links)) d))) st)
      end
  | (st, None) => Ok st
  end.

(** [executeDSL(dsl, ctx)] for a closure of the user; a nil closure
    runs nothing and succeeds. *)
Definition executeDSL (dsl : option nat) (ctx : DSLDefinition)
    (st : State) : outcome (State * bool) :=
  match dsl with
  | None => Ok (st, true)
  | Some d => executeBlock (run d) ctx st
  end.

(** [x.Reference = t] and [x.TypeName = name] go through the embedded
    pointers of the media type or user type. *)
Definition setReference (t : option design.DataType) (u : design.UserTypeDefinition)
    (st : State) : outcome State :=
  a ← deref (design.AttributeDefinition_ u);
  d ← deref (design.attrs (heap st) !! a);
  Ok (set_heap (design.set_attrs (insert a (design.with_Reference t d))) st).

Definition Reference (t : option design.DataType) (st : State) : outcome State :=
  match mediaTypeDefinition false "Reference" st with
  | (st, Some mt) =>
      d ← deref (mediaType st mt);
      setReference t (design.UserTypeDefinition_ d) st
  | (st, None) =>
      match typeDefinition true "Reference" st with
      | (st, Some ut) =>
          d ← deref (design.utypes (heap st) !! ut);
          setReference t d st
      | (st, None) => Ok st
      end
  end.

Definition TypeName (name : string) (st : State) : outcome State :=
  match mediaTypeDefinition false "TypeName" st with
  | (st, Some mt) =>
      d ← deref (mediaType st mt);
      Ok (set_heap (design.set_mtypes (insert mt
            (design.with_UserType
               (design.with_TypeName name (design.UserTypeDefinition_ d)) d))) st)
  | (st, None) =>
      match typeDefinition true "TypeName" st with
      | (st, Some ut) =>
          d ← deref (design.utypes (heap st) !! ut);
          Ok (set_heap (design.set_utypes
                (insert ut (design.with_TypeName name d))) st)
      | (st, None) => Ok st
      end
  end.

(** Lines 215-218 of [View]: the object the names of a view are looked
    up in, the object of the media type or, for a collection, the object
    of its element. *)
Definition View_parentObject (mt : loc) (st : State) : outcome (option loc) :=
  t ← design.mediaTypeType (heap st) mt;
  mto ← design.ToObject (heap st) t;
  match mto with
  | Some _ => Ok mto
  | None =>
      arr ← design.ToArray (heap st) t;
      elem ← deref arr;
      et ← design.attrType (heap st) elem;
      t' ← deref et;
      design.ToObject (heap st) t'
  end.

(** Lines 220-224 of [View]: one turn of the loop over the names of the
    view. [mto[n]] of a nil map finds nothing. *)
Definition View_resolve (o : loc) (mto : option loc) (st : State) (n : string) : State :=
  match (mto ≫= λ l, design.objs (heap st) !! l) ≫= (λ m, m !! n) with
  | Some existing =>
      set_heap (design.set_objs (alter (insert n existing) o)) st
  | None =>
      if decide (n = "links") then st else ReportError (UnknownAttributeError n) st
  end.

(** The loop of lines 219-225 in closed form. [contents st mto] is the
    map the names are looked up in, [resolved parent names ks] the object
    of the view once the names [ks] have been visited, and [unknown parent
    ks] the diagnostics the loop records. *)
Definition contents (st : State) (mto : option loc) : gmap string loc :=
  default ∅ (mto ≫= λ l, design.objs (heap st) !! l).

Definition resolved (parent names : gmap string loc) (ks : list string)
    : gmap string loc :=
  foldl (λ acc n, match parent !! n with Some e => <[n := e]> acc | None => acc end)
        names ks.

Definition unknown (parent : gmap string loc) (ks : list string) : list Diagnostic :=
  UnknownAttributeError <$>
    filter (λ n, parent !! n = None ∧ n ≠ "links") ks.

(** Lines 212-232 of [View]: the block run when the view has been built
    ([ok] is true), on the attribute definition [at] of the view. *)
Definition View_store (mt : loc) (name : string) (at_ : option loc)
    (st : State) : outcome State :=
  att ← design.attrType (heap st) at_;
  t ← deref att;
  o ← design.ToObject (heap st) t;
  st ← match o with
       | Some o =>
           mto ← View_parentObject mt st;
           names ← deref (design.objs (heap st) !! o);
           Ok (foldl (View_resolve o mto) st (range_keys names))
       | None => Ok st
       end;
  d ← deref (mediaType st mt);
  views ← deref (design.Views d);
  let view :=
    {| design.View_AttributeDefinition := at_;
       design.View_Name := name;
       design.View_Parent := mt |} in
  Ok (set_heap (design.set_mtypes
        (insert mt (design.with_Views (Some (<[name := view]> views)) d))) st).

(** Lines 194-232 of [View]: the view is built from the block run on
    the new attribute definition [at_], or taken from the element of a
    collection, then stored. *)
Definition View_build (mt : loc) (name : string) (dsl : list nat) (at_ : loc)
    (st : State) : outcome State :=
  match dsl with
  | d :: _ =>
      '(st, ok) ← executeDSL (Some d) (AttributeCtx at_) st;
      if ok : bool then View_store mt name (Some at_) st else Ok st
  | [] =>
      t ← design.mediaTypeType (heap st) mt;
      isArray ← design.IsArray (heap st) t;
      if isArray : bool then
        arr ← design.ToArray (heap st) t;
        elem ← deref arr;
        match elem with
        | None => Ok st
        | Some e =>
            ed ← deref (design.attrs (heap st) !! e);
            match design.Type_ ed with
            | Some (design.MediaTypeRef pa) =>
                pd ← deref (mediaType st pa);
                match design.Views pd ≫= (λ vs, vs !! name) with
                | Some v =>
                    View_store mt name (design.View_AttributeDefinition v) st
                | None => Ok (ReportError (UnknownViewError name) st)
                end
            | _ => Ok st
            end
        end
      else Ok st
  end.

(** Line 193 of [View]: the attribute definition of the view is
    allocated. *)
Definition View_define (mt : loc) (name : string) (dsl : list nat)
    (st : State) : outcome State :=
  let '(h, at_) := design.new_attr design.zero_attr (heap st) in
  View_build mt name dsl at_ (set_heap (λ _, h) st).

(** The state in which [View] builds a view of the media type [d] at
    [mt], and the attribute definition of the view: the map of views
    exists (lines 185-187) and the attribute definition is allocated
    (line 193). *)
Definition View_prepare (mt : loc) (d : design.MediaTypeDefinition)
    (st : State) : State * loc :=
  let st :=
    match design.Views d with
    | None =>
        set_heap (design.set_mtypes (insert mt (design.with_Views (Some ∅) d))) st
    | Some _ => st
    end in
  let '(h, at_) := design.new_attr design.zero_attr (heap st) in
  (set_heap (λ _, h) st, at_).

Definition View (name : string) (dsl : list nat) (st : State) : outcome State :=
  match mediaTypeDefinition false "View" st with
  | (st, Some mt) =>
      t ← design.mediaTypeType (heap st) mt;
      isObject ← design.IsObject (heap st) t;
      isArray ← (if isObject : bool then Ok true else design.IsArray (heap st) t);
      if negb isObject && negb isArray then Ok (ReportError ViewOnNonObject st)
      else
        d ← deref (mediaType st mt);
        match design.Views d with
        | None =>
            View_define mt name dsl
              (set_heap (design.set_mtypes
                 (insert mt (design.with_Views (Some ∅) d))) st)
        | Some views =>
            match views !! name with
            | Some _ =>
                Ok (ReportError
                      (MultipleViewDefinitions name
                         (design.TypeName (design.UserTypeDefinition_ d))) st)
            | None => View_define mt name dsl st
            end
        end
  | (st, None) =>
      match attributeDefinition true "View" st with
      | (st, Some a) =>
          d ← deref (design.attrs (heap st) !! a);
          Ok (set_heap (design.set_attrs (insert a (design.with_View name d))) st)
      | (st, None) => Ok st
      end
  end.

Definition Attributes (dsl : option nat) (st : State) : outcome State :=
  match mediaTypeDefinition true "Attributes" st with
  | (st, Some mt) => fst <$> executeDSL dsl (MediaTypeCtx mt) st
  | (st, None) => Ok st
  end.

Definition Links (dsl : option nat) (st : State) : outcome State :=
  match mediaTypeDefinition true "Links" st with
  | (st, Some mt) => fst <$> executeDSL dsl (MediaTypeCtx mt) st
  | (st, None) => Ok st
  end.

(** Lines 309-317 of [CollectionOf]: the closure given to the new media
    type, with the variables it captures. *)
Definition CollectionOf_dsl (typeName : string) (m : loc) (dsl : list nat)
    (st : State) : outcome State :=
  match mediaTypeDefinition true "CollectionOf" st with
  | (st, Some mt) =>
      d ← deref (mediaType st mt);
      let '(h, arr) := ArrayOf (design.MediaTypeRef m) (heap st) in
      let '(h, a) :=
        design.new_attr {| design.Type_ := Some arr; design.Reference := None;
                           design.View := "" |} h in
      let u :=
        design.with_AttributeDefinition (Some a)
          (design.with_TypeName typeName (design.UserTypeDefinition_ d)) in
      let st :=
        set_heap (λ _, design.set_mtypes (insert mt (design.with_UserType u d)) h) st in
      match dsl with
      | f :: _ => fst <$> executeDSL (Some f) (MediaTypeCtx mt) st
      | [] => Ok st
      end
  | (st, None) => Ok st
  end.

(** Running a [func()] value. *)
Definition run_func (f : design.DSLFunc) (st : State) : outcome State :=
  match f with
  | design.UserFunc d => run d st
  | design.CollectionFunc typeName m dsl => CollectionOf_dsl typeName m dsl st
  end.

Definition CollectionOf (m : option loc) (dsl : list nat)
    (st : State) : outcome (State * option loc) :=
  l ← deref m;
  md ← deref (mediaType st l);
  let id := design.Identifier md in
  let '(mediatype, params, err) := ParseMediaType id in
  match err with
  | Some e => Ok (ReportError (InvalidIdentifierError id e) st, None)
  | None =>
      let mediatype :=
        if contains_char slash mediatype then mediatype else mediatype ++ "/json" in
      let hasType := bool_decide ("type" ∈ dom params) in
      let params := if hasType then params else <["type" := "collection"]> params in
      let id := FormatMediaType mediatype params in
      let typeName := design.TypeName (design.UserTypeDefinition_ md) ++ "Collection" in
      let f := design.CollectionFunc typeName l dsl in
      let '(h, mt) := design.NewMediaTypeDefinition typeName id (Some f) (heap st) in
      let st := set_heap (λ _, h) st in
      '(st, ok) ← executeBlock (run_func f) (MediaTypeCtx mt) st;
      if ok : bool then
        api ← deref (Design st);
        reg ← deref (design.MediaTypes api);
        Ok (set_Design (Some {| design.MediaTypes := Some (<[id := mt]> reg) |}) st,
            Some mt)
      else Ok (st, Some mt)
  end.

End DSL.

(** The registry is consistent when each of its keys leads to a media
    type of the store whose identifier is that key. *)
Definition registry_ok (st : State) : Prop :=
  ∀ k l, registry st !! k = Some l →
    ∃ d, mediaType st l = Some d ∧ design.Identifier d = k.

End dsl.

(** ** The MIME collaborator *)

(** Modelled from the spec: the MIME parser and formatter the DSL calls
    ([parseMediaType] splits a [type/subtype;param=value] string and fails
    on malformed input, [formatMediaType] joins it again). The definitions
    follow [mime.ParseMediaType] and [mime.FormatMediaType] of the Go
    library for parameters whose values are tokens; quoted values and
    continuations are rejected as invalid parameters. The DSL is
    parameterised by its parser, this one is used to run it. *)
Module mime.

Definition quote : ascii := ascii_of_nat 34.

Definition isTSpecial (c : ascii) : bool :=
  bool_decide (c ∈ quote :: String.list_ascii_of_string "()<>@,;:\/[]?=").

Definition isTokenChar (c : ascii) : bool :=
  let n := nat_of_ascii c in
  bool_decide (32 < n)%nat && bool_decide (n < 127)%nat && negb (isTSpecial c).

Definition isSpace (c : ascii) : bool :=
  bool_decide (nat_of_ascii c ∈ [9; 10; 11; 12; 13; 32]%nat).

Fixpoint isToken_chars (s : string) : bool :=
  match s with
  | EmptyString => true
  | String c s' => isTokenChar c && isToken_chars s'
  end.

Definition isToken (s : string) : bool :=
  negb (bool_decide (s = "")) && isToken_chars s.

Definition lower (c : ascii) : ascii :=
  let n := nat_of_ascii c in
  if bool_decide (65 ≤ n)%nat && bool_decide (n ≤ 90)%nat then ascii_of_nat (n + 32) else c.

Fixpoint ToLower (s : string) : string :=
  match s with
  | EmptyString => EmptyString
  | String c s' => String (lower c) (ToLower s')
  end.

Fixpoint TrimLeft (s : string) : string :=
  match s with
  | String c s' => if isSpace c then TrimLeft s' else s
  | EmptyString => EmptyString
  end.

Definition TrimSpace (s : string) : string :=
  String.rev (TrimLeft (String.rev (TrimLeft s))).

(** The longest prefix made of token characters, and the rest. *)
Fixpoint consumeToken (v : string) : string * string :=
  match v with
  | String c v' =>
      if isTokenChar c then let '(t, rest) := consumeToken v' in (String c t, rest)
      else ("", v)
  | EmptyString => ("", "")
  end.

(** The part of [v] before the first [c], and the rest from [c] on. *)
Fixpoint cut_before (c : ascii) (v : string) : string * string :=
  match v with
  | String a v' =>
      if decide (a = c) then ("", v)
      else let '(b, rest) := cut_before c v' in (String a b, rest)
  | EmptyString => ("", "")
  end.

Definition checkMediaTypeDisposition (s : string) : option string :=
  let '(typ, rest) := consumeToken s in
  if decide (typ = "") then Some "mime: no media type"
  else if decide (rest = "") then None
  else match rest with
       | String c rest' =>
           if decide (c = "/"%char) then
             let '(subtype, rest'') := consumeToken rest' in
             if decide (subtype = "") then Some "mime: expected token after slash"
             else if decide (rest'' = "") then None
             else Some "mime: unexpected content after media subtype"
           else Some "mime: expected slash after first token"
       | EmptyString => None
       end.

(** One [;key=value] parameter at the head of [v]: its key (lower case),
    its value and the rest, or [None] when there is none. *)
Definition consumeMediaParam (v : string) : option (string * string * string) :=
  match TrimLeft v with
  | String c rest =>
      if decide (c = ";"%char) then
        let '(param, rest) := consumeToken (TrimLeft rest) in
        if decide (param = "") then None
        else match TrimLeft rest with
             | String e rest =>
                 if decide (e = "="%char) then
                   let '(value, rest) := consumeToken (TrimLeft rest) in
                   if decide (value = "") then None
                   else Some (ToLower param, value, rest)
                 else None
             | EmptyString => None
             end
      else None
  | EmptyString => None
  end.

Fixpoint parseParams (fuel : nat) (v : string) (params : gmap string string)
    : option (gmap string string) :=
  match fuel with
  | O => Some params
  | S fuel' =>
      let v := TrimLeft v in
      if decide (v = "") then Some params
      else match consumeMediaParam v with
           | None => if decide (TrimSpace v = ";") then Some params else None
           | Some (key, value, rest) =>
               match params !! key with
               | Some v' =>
                   if decide (v' = value) then parseParams fuel' rest params else None
               | None => parseParams fuel' rest (<[key := value]> params)
               end
           end
  end.

Definition ParseMediaType (v : string) : string * gmap string string * option string :=
  let '(base, rest) := cut_before ";"%char v in
  let mediatype := TrimSpace (ToLower base) in
  match checkMediaTypeDisposition mediatype with
  | Some err => ("", ∅, Some err)
  | None =>
      match parseParams (S (String.length rest)) rest ∅ with
      | Some params => (mediatype, params, None)
      | None => ("", ∅, Some "mime: invalid media parameter")
      end
  end.

Definition formatParam (b : string) (kv : string * string) : option string :=
  let '(attribute, value) := kv in
  if isToken attribute && isToken value
  then Some (b ++ "; " ++ ToLower attribute ++ "=" ++ value)
  else None.

Definition FormatMediaType (t : string) (param : gmap string string) : string :=
  let '(major, rest) := cut_before "/"%char t in
  match rest with
  | String _ sub =>
      if isToken major && isToken sub then
        let sorted := merge_sort (λ a b, String.leb a.1 b.1) (map_to_list param) in
        default "" (foldl (λ b kv, b ≫= λ s, formatParam s kv)
                          (Some (ToLower major ++ "/" ++ ToLower sub)) sorted)
      else ""
  | EmptyString => ""
  end.

End mime.

(** ** A run of the DSL: the design of a bottle *)

Module example.
Import dsl.

(** A stand-in for [inflect.Camelize]: the first letter of the word in
    upper case. *)
Definition Camelize (s : string) : string :=
  match s with
  | String c s' =>
      let n := nat_of_ascii c in
      String (if bool_decide (97 ≤ n)%nat && bool_decide (n ≤ 122)%nat
              then ascii_of_nat (n - 32) else c) s'
  | EmptyString => EmptyString
  end.

(** The keys of a map in the order the map lists them. *)
Definition range_keys (m : gmap string loc) : list string := (map_to_list m).*1.

(** What a block of [Attribute(name)] calls does to the attribute it
    runs against: the attribute becomes an object with one placeholder
    attribute per name. *)
Definition declare (names : list string) (st : State) : outcome State :=
  match current st with
  | Some (AttributeCtx a) =>
      d ← deref (design.attrs (heap st) !! a);
      let '(h, o) :=
        foldl (λ '(h, o) n,
                 let '(h, p) := design.new_attr design.zero_attr h in (h, <[n := p]> o))
              (heap st, ∅) names in
      let '(h, l) := design.new_obj o h in
      Ok (set_heap (λ _, design.set_attrs
            (insert a {| design.Type_ := Some (design.Object l);
                         design.Reference := design.Reference d;
                         design.View := design.View d |}) h) st)
  | _ => Ok (ReportError (IncompatibleDSL "Attribute") st)
  end.

(** The closures of the run. *)
Definition run (f : nat) (st : State) : outcome State :=
  match f with
  | 1 => declare ["id"; "href"; "links"] st
  | 2 => declare ["id"; "vintage"] st
  | _ => Ok st
  end.

Definition MediaType := dsl.MediaType mime.ParseMediaType mime.FormatMediaType Camelize.
Definition View := dsl.View run range_keys.
Definition CollectionOf := dsl.CollectionOf mime.ParseMediaType mime.FormatMediaType run.

Definition bottle_id : string := "application/vnd.goa.example.bottle".

(** The store after [MediaType(bottle_id, ...)] declared the attributes
    [id] and [href]: the media type is at 0, its root attribute at 0, its
    object at 0, the attributes [id] and [href] at 1 and 2. *)
Definition bottle_heap : design.Heap :=
  {| design.attrs :=
       {[ 0 := {| design.Type_ := Some (design.Object 0); design.Reference := None;
                   design.View := "" |};
          1 := {| design.Type_ := Some (design.Primitive design.IntegerKind);
                   design.Reference := None; design.View := "" |};
          2 := {| design.Type_ := Some (design.Primitive design.StringKind);
                   design.Reference := None; design.View := "" |} ]};
     design.objs := {[ 0 := {[ "id" := 1; "href" := 2 ]} ]};
     design.utypes := ∅;
     design.mtypes :=
       {[ 0 := {| design.UserTypeDefinition_ :=
                     {| design.AttributeDefinition_ := Some 0;
                        design.TypeName := "Bottle"; design.DSL := None |};
                   design.Identifier := bottle_id;
                   design.Links := None; design.Views := None |} ]};
     design.resps := ∅ |}.

(** Between two declarations: the bottle is registered. *)
Definition bottle_declared : State :=
  {| Design := Some {| design.MediaTypes := Some {[ bottle_id := 0 ]} |};
     heap := bottle_heap; Errors := []; ctxStack := []; mediaTypeCount := 0 |}.

(** Inside the block of the bottle media type. *)
Definition in_bottle : State := set_ctxStack [MediaTypeCtx 0] bottle_declared.

(** The state a call leaves, when it returns. *)
Definition after (r : outcome State) : State :=
  match r with Ok st => st | Panic => initial end.

(** The bottle with its view "default" on [id], [href] and [links], then
    back at top level. *)
Definition bottle_with_view : State := after (View "default" [1] in_bottle).
Definition bottle_done : State := set_ctxStack [] bottle_with_view.

(** The collection of bottles, declared at top level, and the inside of
    its block. *)
Definition with_collection : State :=
  match CollectionOf (Some 0) [] bottle_done with
  | Ok (st, _) => st
  | Panic => initial
  end.
Definition in_collection : State := set_ctxStack [MediaTypeCtx 1] with_collection.

(** The collection once it has a view "default" of its own, built from a
    block. *)
Definition in_collection_with_view : State := after (View "default" [1] in_collection).

(** The bottle with a view "short" on [id] and [vintage], an attribute the
    bottle does not have; then the collection of these bottles, and the
    inside of its block. *)
Definition bottle_short : State := set_ctxStack [] (after (View "short" [2] in_bottle)).
Definition in_short_collection : State :=
  match CollectionOf (Some 0) [] bottle_short with
  | Ok (st, _) => set_ctxStack [MediaTypeCtx 1] st
  | Panic => initial
  end.

(** The bottle media type as declared, and the states a call of
    [View(name, block 2)] inside the bottle goes through: the attribute
    definition of the view is allocated at 3, then the block has run
    against it. *)
Definition bottle : design.MediaTypeDefinition :=
  {| design.UserTypeDefinition_ :=
       {| design.AttributeDefinition_ := Some 0;
          design.TypeName := "Bottle"; design.DSL := None |};
     design.Identifier := bottle_id;
     design.Links := None; design.Views := None |}.
Definition view_prepared : State := (View_prepare 0 bottle in_bottle).1.
Definition view_declared : State :=
  set_ctxStack [MediaTypeCtx 0]
    (after (run 2 (set_ctxStack [MediaTypeCtx 0; AttributeCtx 3] view_prepared))).

(** A media type whose type is a string, and the inside of its block. *)
Definition in_scalar : State :=
  {| Design := Some {| design.MediaTypes := Some {[ "text/plain" := 0 ]} |};
     heap :=
       {| design.attrs :=
            {[ 0 := {| design.Type_ := Some (design.Primitive design.StringKind);
                        design.Reference := None; design.View := "" |} ]};
          design.objs := ∅;
          design.utypes := ∅;
          design.mtypes :=
            {[ 0 := {| design.UserTypeDefinition_ :=
                          {| design.AttributeDefinition_ := Some 0;
                             design.TypeName := "Plain"; design.DSL := None |};
                        design.Identifier := "text/plain";
                        design.Links := None; design.Views := None |} ]};
          design.resps := ∅ |};
     Errors := []; ctxStack := [MediaTypeCtx 0]; mediaTypeCount := 0 |}.

(** Inside the block of a response "NotFound" of the bottle design. *)
Definition in_response : State :=
  set_ctxStack [ResponseCtx 0]
    (set_heap (design.set_resps
       (insert 0 {| design.Status := 404; design.MediaType := "" |})) bottle_declared).

(** Inside the attribute [id] of a view of the bottle, inside a user type
    "Payload" built on the attribute at 1, and inside a definition that is
    none of the above. *)
Definition in_attribute : State :=
  set_ctxStack [MediaTypeCtx 0; AttributeCtx 1] bottle_declared.

Definition in_type : State :=
  set_ctxStack [UserTypeCtx 0]
    (set_heap (design.set_utypes
       (insert 0 {| design.AttributeDefinition_ := Some 1;
                    design.TypeName := "Payload"; design.DSL := None |}))
       bottle_declared).

Definition in_resource : State := set_ctxStack [OtherCtx] bottle_declared.

(** A media type that is an array of strings, and the inside of its
    block. *)
Definition in_strings : State :=
  {| Design := Some {| design.MediaTypes := Some {[ "application/vnd.names" := 0 ]} |};
     heap :=
       {| design.attrs :=
            {[ 0 := {| design.Type_ := Some (design.Array (Some 1));
                        design.Reference := None; design.View := "" |};
               1 := {| design.Type_ := Some (design.Primitive design.StringKind);
                        design.Reference := None; design.View := "" |} ]};
          design.objs := ∅;
          design.utypes := ∅;
          design.mtypes :=
            {[ 0 := {| design.UserTypeDefinition_ :=
                          {| design.AttributeDefinition_ := Some 0;
                             design.TypeName := "Names"; design.DSL := None |};
                        design.Identifier := "application/vnd.names";
                        design.Links := None; design.Views := None |} ]};
          design.resps := ∅ |};
     Errors := []; ctxStack := [MediaTypeCtx 0]; mediaTypeCount := 0 |}.

(** More closures: [func() { View("default") }], a block that declares a
    view without a block of its own, and [func() { Media("text/plain") }],
    a block that uses [Media] where no response is being defined. *)
Definition blocks (f : nat) (st : State) : outcome State :=
  match f with
  | 3 => dsl.View (λ _ s, Ok s) range_keys "default" [] st
  | 4 => dsl.Media (VString "text/plain") st
  | _ => run f st
  end.

End example.

(** * Properties of the DSL *)

Section Properties.

Import dsl.

Variable ParseMediaType : string → string * gmap string string * option string.
Variable FormatMediaType : string → gmap string string → string.
Variable Camelize : string → string.
Variable run : nat → State → outcome State.
Variable range_keys : gmap string loc → list string.

Local Abbreviation canonical := (dsl.canonical ParseMediaType FormatMediaType).
Local Abbreviation MediaType := (dsl.MediaType ParseMediaType FormatMediaType Camelize).
Local Abbreviation MediaType_init := dsl.MediaType_init.
Local Abbreviation MediaType_pre :=
  (dsl.MediaType_pre ParseMediaType FormatMediaType Camelize).
Local Abbreviation View := (dsl.View run range_keys).
Local Abbreviation View_define := (dsl.View_define run range_keys).
Local Abbreviation View_store := (dsl.View_store range_keys).
Local Abbreviation CollectionOf := (dsl.CollectionOf ParseMediaType FormatMediaType run).

(** Projections of updated states and stores. *)
Ltac simpl_state :=
  cbn [heap Design Errors ctxStack mediaTypeCount set_heap set_Design set_Errors
       set_ctxStack set_mediaTypeCount ReportError design.attrs design.objs
       design.utypes design.mtypes design.resps design.set_attrs design.set_objs
       design.set_utypes design.set_mtypes design.set_resps] in *.

(** ** The registry *)

Lemma registry_Some st reg :
  Design st = Some {| design.MediaTypes := Some reg |} → registry st = reg.
Proof. unfold registry. by intros ->. Qed.

Lemma registry_lookup_inv st k l :
  registry st !! k = Some l →
  ∃ reg, Design st = Some {| design.MediaTypes := Some reg |}.
Proof.
  unfold registry. destruct (Design st) as [[[reg|]]|]; simpl; [eauto|..];
    by rewrite lookup_empty.
Qed.

Lemma MediaType_pre_frame identifier st :
  Design (MediaType_pre identifier st) = Design st
  ∧ heap (MediaType_pre identifier st) = heap st
  ∧ ctxStack (MediaType_pre identifier st) = ctxStack st
  ∧ Errors st `prefix_of` Errors (MediaType_pre identifier st).
Proof.
  unfold dsl.MediaType_pre. destruct (ParseMediaType identifier) as [[i p] [e|]];
    case_decide; simpl; repeat split; try done; by apply prefix_app_r.
Qed.

Lemma MediaType_pre_malformed identifier i p e st :
  ParseMediaType identifier = (i, p, Some e) →
  InvalidIdentifierError i e ∈ Errors (MediaType_pre identifier st).
Proof.
  unfold dsl.MediaType_pre. intros ->. case_decide; simpl; set_solver.
Qed.

Lemma MediaType_init_spec st :
  ∃ reg,
    MediaType_init st = set_Design (Some {| design.MediaTypes := Some reg |}) st
    ∧ reg = registry st.
Proof.
  unfold MediaType_init, registry, InitDesign.
  destruct (Design st) as [[[reg|]]|] eqn:HD; simpl; rewrite ?HD; simpl;
    eexists; (split; [|reflexivity]); [|done..].
  destruct st; simpl in *; by subst.
Qed.

Lemma MediaType_top_registered identifier dsl st :
  ctxStack st = [] →
  is_Some (registry st !! canonical identifier) →
  ∃ st',
    MediaType identifier dsl st = (st', None)
    ∧ Design st' = Design st ∧ heap st' = heap st
    ∧ Errors st' = (Errors (MediaType_pre identifier st)
                     ++ [MediaTypeDefinedTwice (canonical identifier)])%list.
Proof.
  intros Hctx [l Hl]. destruct (registry_lookup_inv _ _ _ Hl) as [reg0 HD].
  unfold dsl.MediaType, dsl.MediaType_pre, topLevelDefinition, dsl.canonical in *.
  destruct (MediaType_init_spec st) as (reg & -> & ->). simpl.
  rewrite Hctx. simpl.
  destruct (ParseMediaType identifier) as [[i p] [e|]]; case_decide; simpl;
    unfold registry at 1; simpl; rewrite Hl;
    (eexists; split; [reflexivity|]); simpl; rewrite HD;
    by rewrite (registry_Some _ _ HD).
Qed.

Lemma MediaType_top_fresh identifier dsl st :
  ctxStack st = [] →
  registry st !! canonical identifier = None →
  ∃ st' mt d,
    MediaType identifier dsl st = (st', Some mt)
    ∧ registry st' = <[canonical identifier := mt]> (registry st)
    ∧ mediaType st mt = None
    ∧ mediaType st' mt = Some d
    ∧ design.Identifier d = canonical identifier
    ∧ Errors st' = Errors (MediaType_pre identifier st)
    ∧ ctxStack st' = [].
Proof.
  intros Hctx Hreg.
  unfold dsl.MediaType, dsl.MediaType_pre, topLevelDefinition, dsl.canonical in *.
  destruct (MediaType_init_spec st) as (reg & -> & ->). simpl.
  rewrite Hctx. simpl.
  destruct (ParseMediaType identifier) as [[i p] [e|]]; case_decide; simpl;
    unfold registry at 1; simpl; rewrite Hreg;
    unfold design.NewMediaTypeDefinition, design.new_obj, design.new_attr,
      design.new_mtype; simpl;
    (eexists _, _, _; split; [reflexivity|]; simpl;
     split; [done|]; split; [apply not_elem_of_dom, is_fresh|];
     split; [unfold mediaType; simpl; apply lookup_insert_eq|done]).
Qed.

(** C1. When a media type is registered under the canonical form of an
    identifier, a call of [MediaType] at top level with an identifier that
    has the same canonical form returns nil, records the diagnostic "is
    defined twice" (a [DuplicateDefinition]) last, and leaves the registry
    and the store as they were: the first definition stays registered. *)
Theorem MediaType_duplicate_rejected (id1 id2 : string) (dsl : option nat)
    (st : State) (first : loc) :
  ctxStack st = [] →
  canonical id2 = canonical id1 →
  registry st !! canonical id1 = Some first →
  ∃ st',
    MediaType id2 dsl st = (st', None)
    ∧ last (Errors st') = Some (MediaTypeDefinedTwice (canonical id1))
    ∧ kind (MediaTypeDefinedTwice (canonical id1)) = DuplicateDefinition
    ∧ Errors st `prefix_of` Errors st'
    ∧ registry st' = registry st
    ∧ registry st' !! canonical id1 = Some first
    ∧ heap st' = heap st.
Proof.
  intros Hctx Hcan Hreg.
  destruct (MediaType_top_registered id2 dsl st) as (st' & -> & HD & Hh & He);
    [done|rewrite Hcan; eauto|].
  assert (registry st' = registry st) as Hr by (unfold registry; by rewrite HD).
  exists st'. rewrite He, Hr, Hcan. split; [done|].
  split; [apply last_snoc|]. split; [done|].
  split; [|done].
  destruct (MediaType_pre_frame id2 st) as (_ & _ & _ & Hp).
  by apply prefix_app_r.
Qed.

(** A call of [MediaType] at top level with an identifier the parser
    rejects, whose canonical form is not registered yet: the error is
    recorded, and the media type is created, registered and returned all
    the same. *)
Lemma MediaType_malformed_still_registers (identifier i e : string)
    (p : gmap string string) (dsl : option nat) (st : State) :
  ctxStack st = [] →
  ParseMediaType identifier = (i, p, Some e) →
  registry st !! canonical identifier = None →
  ∃ st' mt,
    MediaType identifier dsl st = (st', Some mt)
    ∧ InvalidIdentifierError i e ∈ Errors st'
    ∧ registry st' !! canonical identifier = Some mt.
Proof.
  intros Hctx Hparse Hreg.
  destruct (MediaType_top_fresh identifier dsl st Hctx Hreg)
    as (st' & mt & d & -> & Hr & _ & _ & _ & He & _).
  exists st', mt. split; [done|]. rewrite He, Hr. split.
  - by eapply MediaType_pre_malformed.
  - apply lookup_insert_eq.
Qed.

(** ** Links *)

Lemma current_mediaType st mt fail caller :
  current st = Some (MediaTypeCtx mt) →
  mediaTypeDefinition fail caller st = (st, Some mt).
Proof. unfold mediaTypeDefinition. by intros ->. Qed.

Lemma Link_fresh name views st mt d :
  current st = Some (MediaTypeCtx mt) →
  mediaType st mt = Some d →
  link st mt name = None →
  ∃ st',
    Link name views st = Ok st'
    ∧ Errors st' =
        (Errors st ++ if bool_decide (1 < length views)%nat
                      then [InvalidLinkSyntaxError name] else [])%list
    ∧ link st' mt name =
        Some {| design.Link_Name := name;
                design.Link_View := default "link" (head views);
                design.Link_Parent := mt |}
    ∧ (∀ other, other ≠ name → link st' mt other = link st mt other).
Proof.
  intros Hcur Hmt Hl. unfold Link. rewrite (current_mediaType _ _ _ _ Hcur), Hmt. simpl.
  unfold link in Hl. rewrite Hmt in Hl. simpl in Hl.
  replace (design.Links d ≫= λ ls, ls !! name) with (@None design.LinkDefinition)
    by (symmetry; destruct (design.Links d); done).
  eexists; split; [reflexivity|].
  unfold link, mediaType. case_bool_decide; simpl; rewrite lookup_insert_eq; simpl.
  all: split; [by rewrite ?app_nil_r|]; split; [apply lookup_insert_eq|].
  all: intros other Hne; rewrite lookup_insert_ne by done;
    fold (mediaType st mt); rewrite Hmt; simpl;
    destruct (design.Links d); simpl; by rewrite ?lookup_empty.
Qed.

(** C6. Inside a media type, [Link(name)] stores a link whose view is
    "link" and [Link(name, v)] stores a link whose view is [v], both
    without a diagnostic; when the media type already holds a link of that
    name the call records "duplicate definition for link" (a
    [DuplicateDefinition]) and changes nothing else, so the first link
    stays as it was. *)
Theorem Link_default_view_and_duplicate (name : string) (st : State) (mt : loc)
    (d : design.MediaTypeDefinition) :
  current st = Some (MediaTypeCtx mt) →
  mediaType st mt = Some d →
  (link st mt name = None →
     (∃ st', Link name [] st = Ok st' ∧ Errors st' = Errors st
             ∧ link st' mt name =
                 Some {| design.Link_Name := name; design.Link_View := "link";
                         design.Link_Parent := mt |})
     ∧ (∀ v, ∃ st', Link name [v] st = Ok st' ∧ Errors st' = Errors st
             ∧ link st' mt name =
                 Some {| design.Link_Name := name; design.Link_View := v;
                         design.Link_Parent := mt |}))
  ∧ (∀ first views, link st mt name = Some first →
       ∃ st', Link name views st = Ok st'
              ∧ Errors st' = (Errors st ++ [DuplicateLink name])%list
              ∧ kind (DuplicateLink name) = DuplicateDefinition
              ∧ heap st' = heap st
              ∧ link st' mt name = Some first).
Proof.
  intros Hcur Hmt. split.
  - intros Hl. split; [|intros v].
    + destruct (Link_fresh name [] st mt d Hcur Hmt Hl) as (st' & ? & He & ? & _).
      exists st'. simpl in He. by rewrite app_nil_r in He.
    + destruct (Link_fresh name [v] st mt d Hcur Hmt Hl) as (st' & ? & He & ? & _).
      exists st'. simpl in He. by rewrite app_nil_r in He.
  - intros first views Hl. unfold Link.
    rewrite (current_mediaType _ _ _ _ Hcur), Hmt. simpl.
    pose proof Hl as Hl'. unfold link in Hl'. rewrite Hmt in Hl'. simpl in Hl'.
    replace (design.Links d ≫= λ ls, ls !! name) with (Some first)
      by (symmetry; destruct (design.Links d); done).
    eexists; split; [reflexivity|]. by repeat split.
Qed.

(** C7. Inside a media type that holds no link of that name, [Link] with
    more than one view argument records "invalid syntax in Link
    definition" (an [InvalidLinkSyntax]) and registers the link all the
    same, with the first of the views it was given. *)
Theorem Link_extra_views_still_registered (name v1 v2 : string) (vs : list string)
    (st : State) (mt : loc) (d : design.MediaTypeDefinition) :
  current st = Some (MediaTypeCtx mt) →
  mediaType st mt = Some d →
  link st mt name = None →
  ∃ st',
    Link name (v1 :: v2 :: vs) st = Ok st'
    ∧ Errors st' = (Errors st ++ [InvalidLinkSyntaxError name])%list
    ∧ kind (InvalidLinkSyntaxError name) = InvalidLinkSyntax
    ∧ link st' mt name =
        Some {| design.Link_Name := name; design.Link_View := v1;
                design.Link_Parent := mt |}.
Proof.
  intros Hcur Hmt Hl.
  destruct (Link_fresh name (v1 :: v2 :: vs) st mt d Hcur Hmt Hl)
    as (st' & ? & He & ? & _).
  exists st'. rewrite bool_decide_eq_true_2 in He by (simpl; lia). done.
Qed.

(** ** Responses *)

(** C9, as the code has it. Inside a response, [Media] given a media type
    that is not nil sets the media type of the response to the identifier
    of that media type, given a string sets it to the string, both without
    a diagnostic; given a value of another kind it records "media type
    must be a string or a pointer to MediaTypeDefinition" (an
    [InvalidArgument]) and leaves the store, hence the media type of the
    response, as it was. Given the nil pointer to a media type, which is
    what a refused [MediaType] call returns, the call panics: line 105
    reads the identifier through it. *)
Theorem Media_sets_response_media_type (st : State) (r : loc)
    (rd : design.ResponseDefinition) :
  current st = Some (ResponseCtx r) →
  design.resps (heap st) !! r = Some rd →
  (∀ m d, mediaType st m = Some d →
     ∃ st', Media (VMediaType (Some m)) st = Ok st'
            ∧ responseMedia st' r = Some (design.Identifier d)
            ∧ Errors st' = Errors st)
  ∧ (∀ identifier,
     ∃ st', Media (VString identifier) st = Ok st'
            ∧ responseMedia st' r = Some identifier
            ∧ Errors st' = Errors st)
  ∧ (∀ repr,
     ∃ st', Media (VOther repr) st = Ok st'
            ∧ Errors st' = (Errors st ++ [InvalidMediaValue repr])%list
            ∧ kind (InvalidMediaValue repr) = InvalidArgument
            ∧ heap st' = heap st
            ∧ responseMedia st' r = responseMedia st r)
  ∧ Media (VMediaType None) st = Panic.
Proof.
  intros Hcur Hr. unfold Media, responseDefinition, responseMedia. rewrite Hcur.
  split; [|split; [|split]].
  - intros m d Hm. simpl. rewrite Hm, Hr. simpl.
    eexists; split; [reflexivity|]. simpl. by rewrite lookup_insert_eq.
  - intros identifier. rewrite Hr. simpl.
    eexists; split; [reflexivity|]. simpl. by rewrite lookup_insert_eq.
  - intros repr. eexists; split; [reflexivity|]. by repeat split.
  - done.
Qed.

(** ** Types are read the same way in a larger store *)

Lemma depth_extends h h' : design.extends h h' → design.depth h' = design.depth h.
Proof.
  intros (Hu & Hm & _). unfold design.depth.
  by rewrite Hu, <- !(size_dom (D := gset loc)), Hm.
Qed.

Lemma attrType_extends h h' a r :
  design.extends h h' → design.attrType h a = Ok r → design.attrType h' a = Ok r.
Proof.
  intros (_ & _ & _ & Ha). unfold design.attrType.
  destruct a as [l|]; simpl; [|done].
  destruct (design.attrs h !! l) as [d|] eqn:Hl; simpl; [|done].
  by rewrite (lookup_weaken _ _ _ _ Hl Ha).
Qed.

Lemma userType_extends h h' u r :
  design.extends h h' → design.userType h u = Ok r → design.userType h' u = Ok r.
Proof.
  intros Hext. unfold design.userType.
  destruct (design.attrType h (design.AttributeDefinition_ u)) as [t|] eqn:Ht;
    simpl; [|done].
  by rewrite (attrType_extends _ _ _ _ Hext Ht).
Qed.

Lemma mediaTypeType_extends h h' m r :
  design.extends h h' →
  design.mediaTypeType h m = Ok r → design.mediaTypeType h' m = Ok r.
Proof.
  intros Hext. pose proof Hext as (_ & _ & Hm & _). unfold design.mediaTypeType.
  destruct (design.mtypes h !! m) as [d|] eqn:Hd; simpl; [|done].
  destruct (Hm _ _ Hd) as (d' & -> & Hu). simpl. rewrite Hu.
  by apply userType_extends.
Qed.

Lemma underlying_extends n h h' t r :
  design.extends h h' →
  design.underlying n h t = Ok r → design.underlying n h' t = Ok r.
Proof.
  intros Hext. pose proof Hext as (Hu & _ & Hm & _).
  revert t. induction n as [|n IH]; intros t; destruct t; simpl; try done.
  - rewrite Hu. destruct (design.utypes h !! u) as [d|]; simpl; [|done].
    destruct (design.userType h d) as [t'|] eqn:Ht; simpl; [|done].
    rewrite (userType_extends _ _ _ _ Hext Ht). simpl. apply IH.
  - destruct (design.mtypes h !! m) as [d|] eqn:Hd; simpl; [|done].
    destruct (Hm _ _ Hd) as (d' & -> & Hd'). simpl. rewrite Hd'.
    destruct (design.userType h (design.UserTypeDefinition_ d)) as [t'|] eqn:Ht;
      simpl; [|done].
    rewrite (userType_extends _ _ _ _ Hext Ht). simpl. apply IH.
Qed.

Lemma underlying_depth_extends h h' t r :
  design.extends h h' →
  design.underlying (design.depth h) h t = Ok r →
  design.underlying (design.depth h') h' t = Ok r.
Proof.
  intros Hext. rewrite (depth_extends _ _ Hext). by apply underlying_extends.
Qed.

Lemma IsObject_extends h h' t r :
  design.extends h h' → design.IsObject h t = Ok r → design.IsObject h' t = Ok r.
Proof.
  intros Hext. unfold design.IsObject.
  destruct (design.underlying (design.depth h) h t) as [t'|] eqn:Ht; [|done].
  by rewrite (underlying_depth_extends _ _ _ _ Hext Ht).
Qed.

Lemma IsArray_extends h h' t r :
  design.extends h h' → design.IsArray h t = Ok r → design.IsArray h' t = Ok r.
Proof.
  intros Hext. unfold design.IsArray.
  destruct (design.underlying (design.depth h) h t) as [t'|] eqn:Ht; [|done].
  by rewrite (underlying_depth_extends _ _ _ _ Hext Ht).
Qed.

Lemma ToObject_extends h h' t r :
  design.extends h h' → design.ToObject h t = Ok r → design.ToObject h' t = Ok r.
Proof.
  intros Hext. unfold design.ToObject.
  destruct (design.underlying (design.depth h) h t) as [t'|] eqn:Ht; [|done].
  by rewrite (underlying_depth_extends _ _ _ _ Hext Ht).
Qed.

Lemma ToArray_extends h h' t r :
  design.extends h h' → design.ToArray h t = Ok r → design.ToArray h' t = Ok r.
Proof.
  intros Hext. unfold design.ToArray.
  destruct (design.underlying (design.depth h) h t) as [t'|] eqn:Ht; [|done].
  by rewrite (underlying_depth_extends _ _ _ _ Hext Ht).
Qed.

(** An object is not an array, and an array is not an object. *)
Lemma IsObject_not_IsArray h t :
  design.IsObject h t = Ok true → design.IsArray h t = Ok false.
Proof.
  unfold design.IsObject, design.IsArray.
  destruct (design.underlying (design.depth h) h t) as [[]|]; simpl; congruence.
Qed.

Lemma ToArray_IsArray h t e :
  design.ToArray h t = Ok (Some e) →
  design.IsArray h t = Ok true ∧ design.IsObject h t = Ok false
  ∧ design.ToObject h t = Ok None.
Proof.
  unfold design.ToObject, design.IsArray, design.IsObject, design.ToArray.
  destruct (design.underlying (design.depth h) h t) as [[]|]; simpl; try congruence.
  done.
Qed.

(** ** Views *)

(** The state in which a view is built differs from the state of the call
    by the new attribute definition and by the map of views, which exists. *)
Lemma View_prepare_spec mt d st st1 at_ :
  mediaType st mt = Some d →
  View_prepare mt d st = (st1, at_) →
  design.extends (heap st) (heap st1)
  ∧ design.attrs (heap st) !! at_ = None
  ∧ design.attrs (heap st1) = <[at_ := design.zero_attr]> (design.attrs (heap st))
  ∧ design.objs (heap st1) = design.objs (heap st)
  ∧ mediaType st1 mt = Some (design.with_Views (Some (default ∅ (design.Views d))) d)
  ∧ (∀ m, m ≠ mt → mediaType st1 m = mediaType st m)
  ∧ Errors st1 = Errors st ∧ ctxStack st1 = ctxStack st ∧ Design st1 = Design st.
Proof.
  intros Hmt. unfold View_prepare, design.new_attr, mediaType in *.
  destruct (design.Views d) as [vs|] eqn:Hv; simpl; intros [= <- <-];
    unfold design.extends; simpl_state.
  - split; [|split; [apply not_elem_of_dom, is_fresh|]].
    + split; [done|]. split; [done|]. split; [eauto|].
      apply insert_subseteq, not_elem_of_dom, is_fresh.
    + repeat split; try done. rewrite Hmt. f_equal.
      destruct d; simpl in *; by subst.
  - split; [|split; [apply not_elem_of_dom, is_fresh|]].
    + split; [done|]. split; [|split].
      * apply dom_insert_lookup_L. eauto.
      * intros m d0 Hm. destruct (decide (m = mt)) as [->|Hne].
        -- rewrite lookup_insert_eq. rewrite Hmt in Hm. injection Hm as <-. eauto.
        -- rewrite lookup_insert_ne by done. eauto.
      * apply insert_subseteq, not_elem_of_dom, is_fresh.
    + repeat split; try done.
      * by rewrite lookup_insert_eq.
      * intros m Hne. by rewrite lookup_insert_ne.
Qed.

(** A call of [View] inside a media type that is an object or an array
    and holds no view of that name builds the view. *)
Lemma View_enter name dsl st mt d t :
  current st = Some (MediaTypeCtx mt) →
  mediaType st mt = Some d →
  design.mediaTypeType (heap st) mt = Ok t →
  (design.IsObject (heap st) t = Ok true
   ∨ design.IsObject (heap st) t = Ok false ∧ design.IsArray (heap st) t = Ok true) →
  view st mt name = None →
  View name dsl st =
    View_build run range_keys mt name dsl (View_prepare mt d st).2 (View_prepare mt d st).1.
Proof.
  intros Hcur Hmt Ht Hguard Hview. unfold dsl.View.
  rewrite (current_mediaType _ _ _ _ Hcur), Ht. simpl.
  assert ((design.IsObject (heap st) t ≫= λ isObject : bool,
           (if isObject then Ok true else design.IsArray (heap st) t) ≫= λ isArray : bool,
           Ok (negb isObject && negb isArray)) = Ok false) as Hg.
  { destruct Hguard as [->|[-> ->]]; done. }
  destruct Hguard as [HO|[HO HA]]; rewrite HO; simpl; rewrite ?HA; simpl;
    rewrite Hmt; simpl; unfold view in Hview; rewrite Hmt in Hview; simpl in Hview;
    unfold View_prepare, dsl.View_define;
    destruct (design.Views d) as [vs|]; simpl in *; rewrite ?Hview; done.
Qed.

(** C8. Inside a media type whose type is neither an object nor an array,
    every call of [View] records "cannot define view on non object and
    non collection media types" (an [UnsupportedViewTarget]) and changes
    nothing else: the store, hence the views of the media type, is as it
    was. *)
Theorem View_scalar_rejected (name : string) (dsl : list nat) (st : State)
    (mt : loc) (t : design.DataType) :
  current st = Some (MediaTypeCtx mt) →
  design.mediaTypeType (heap st) mt = Ok t →
  design.IsObject (heap st) t = Ok false →
  design.IsArray (heap st) t = Ok false →
  ∃ st',
    View name dsl st = Ok st'
    ∧ Errors st' = (Errors st ++ [ViewOnNonObject])%list
    ∧ kind ViewOnNonObject = UnsupportedViewTarget
    ∧ heap st' = heap st
    ∧ (mediaType st' mt ≫= design.Views) = (mediaType st mt ≫= design.Views).
Proof.
  intros Hcur Ht HO HA. unfold dsl.View.
  rewrite (current_mediaType _ _ _ _ Hcur), Ht. simpl. rewrite HO. simpl.
  rewrite HA. simpl. eexists; split; [reflexivity|]. by repeat split.
Qed.

(** C10, as the code has it. Inside a media type whose type is an object
    and that holds no view of that name, [View(name)] without a block
    records no diagnostic and adds no view: the media type holds the same
    views as before, none of them under that name. *)
Theorem View_no_block_on_object (name : string) (st : State) (mt : loc)
    (d : design.MediaTypeDefinition) (t : design.DataType) :
  current st = Some (MediaTypeCtx mt) →
  mediaType st mt = Some d →
  design.mediaTypeType (heap st) mt = Ok t →
  design.IsObject (heap st) t = Ok true →
  view st mt name = None →
  ∃ st',
    View name [] st = Ok st'
    ∧ Errors st' = Errors st
    ∧ view st' mt name = None
    ∧ (∀ n, view st' mt n = view st mt n).
Proof.
  intros Hcur Hmt Ht HO Hview.
  rewrite (View_enter name [] st mt d t) by eauto.
  destruct (View_prepare mt d st) as [st1 at_] eqn:Hprep. simpl.
  destruct (View_prepare_spec _ _ _ _ _ Hmt Hprep)
    as (Hext & _ & _ & _ & Hmt1 & _ & He & _).
  rewrite (mediaTypeType_extends _ _ _ _ Hext Ht). simpl.
  rewrite (IsArray_extends _ _ _ _ Hext (IsObject_not_IsArray _ _ HO)). simpl.
  exists st1. split; [done|]. split; [done|].
  assert (∀ n, view st1 mt n = view st mt n) as Hsame.
  { intros n. unfold view. rewrite Hmt1, Hmt. simpl.
    destruct (design.Views d); simpl; by rewrite ?lookup_empty. }
  split; [by rewrite Hsame|done].
Qed.

(** *** The loop over the names of a view *)

Lemma contents_lookup st mto n :
  ((mto ≫= λ l, design.objs (heap st) !! l) ≫= (λ m : gmap string loc, m !! n))
  = contents st mto !! n.
Proof.
  unfold contents. destruct mto as [l|]; simpl; [|done].
  destruct (design.objs (heap st) !! l); simpl; [done|]. by rewrite lookup_empty.
Qed.

Lemma View_resolve_found o mto st n names e :
  design.objs (heap st) !! o = Some names →
  contents st mto !! n = Some e →
  let st1 := View_resolve o mto st n in
  st1 = set_heap (design.set_objs (insert o (<[n := e]> names))) st
  ∧ contents st1 mto = contents st mto.
Proof.
  intros Ho He. unfold View_resolve. rewrite contents_lookup, He. simpl.
  assert (alter (insert n e) o (design.objs (heap st))
          = <[o := <[n := e]> names]> (design.objs (heap st))) as Halter.
  { apply map_eq. intros l. destruct (decide (l = o)) as [->|Hne].
    - by rewrite lookup_alter_eq, lookup_insert_eq, Ho.
    - by rewrite lookup_alter_ne, lookup_insert_ne. }
  split.
  - unfold set_heap, design.set_objs. by rewrite Halter.
  - unfold contents in *. simpl_state. rewrite Halter.
    destruct mto as [l|]; simpl in *; [|done].
    destruct (decide (l = o)) as [->|Hne].
    + rewrite lookup_insert_eq. rewrite Ho in He |- *. simpl in *.
      by rewrite insert_id.
    + by rewrite lookup_insert_ne.
Qed.

Lemma View_resolve_missing o mto st n :
  contents st mto !! n = None →
  View_resolve o mto st n =
    set_Errors (Errors st ++ unknown (contents st mto) [n]) st.
Proof.
  intros He. unfold View_resolve, unknown. rewrite contents_lookup, He.
  rewrite filter_cons, filter_nil.
  destruct (decide (n = "links")) as [->|Hne].
  - rewrite decide_False by (by intros [_ ?]). simpl. rewrite app_nil_r. by destruct st.
  - by rewrite decide_True.
Qed.

Lemma unknown_cons parent n ks :
  unknown parent (n :: ks) = (unknown parent [n] ++ unknown parent ks)%list.
Proof. unfold unknown. by rewrite <- fmap_app, <- filter_app. Qed.

Lemma unknown_found parent n e : parent !! n = Some e → unknown parent [n] = [].
Proof.
  intros He. unfold unknown. rewrite filter_cons, filter_nil.
  rewrite decide_False; [done|]. intros [? _]. congruence.
Qed.

Lemma resolved_cons parent names n ks :
  resolved parent names (n :: ks) =
    resolved parent
      (match parent !! n with Some e => <[n := e]> names | None => names end) ks.
Proof. done. Qed.

Lemma View_resolve_loop o mto ks : ∀ st names,
  design.objs (heap st) !! o = Some names →
  foldl (View_resolve o mto) st ks =
    set_Errors (Errors st ++ unknown (contents st mto) ks)
      (set_heap (design.set_objs
         (insert o (resolved (contents st mto) names ks))) st).
Proof.
  induction ks as [|n ks IH]; intros st names Ho.
  - unfold unknown, resolved. simpl. rewrite app_nil_r.
    unfold set_heap, design.set_objs, set_Errors. simpl.
    rewrite (insert_id _ _ _ Ho). destruct st as [? [] ? ? ?]; done.
  - cbn [foldl]. rewrite unknown_cons, resolved_cons.
    destruct (contents st mto !! n) as [e|] eqn:He.
    + destruct (View_resolve_found _ _ _ _ _ _ Ho He) as [Hst Hc].
      cbv zeta in Hst, Hc.
      rewrite (IH _ (<[n := e]> names))
        by (rewrite Hst; simpl_state; apply lookup_insert_eq).
      rewrite Hc, (unknown_found _ _ _ He), app_nil_l, Hst.
      unfold set_heap, set_Errors, design.set_objs. simpl.
      by rewrite insert_insert_eq.
    + rewrite (View_resolve_missing _ _ _ _ He).
      assert (contents (set_Errors (Errors st ++ unknown (contents st mto) [n]) st) mto
              = contents st mto) as Hc by done.
      rewrite (IH _ names) by done. rewrite Hc.
      unfold set_heap, set_Errors. simpl. by rewrite app_assoc.
Qed.

Lemma resolved_lookup_found parent names ks n e :
  n ∈ ks → parent !! n = Some e → resolved parent names ks !! n = Some e.
Proof.
  revert names. unfold resolved.
  induction ks as [|k ks IH]; intros names Hin He; [by apply elem_of_nil in Hin|].
  simpl. destruct (decide (n ∈ ks)) as [Hks|Hks]; [by apply IH|].
  apply elem_of_cons in Hin as [Heq|]; [|done]. subst k. rewrite He.
  rewrite <- (lookup_insert_eq names n e).
  clear IH. generalize (<[n := e]> names) as acc.
  induction ks as [|k' ks IH]; intros acc; simpl; [done|].
  apply not_elem_of_cons in Hks as [Hne Hks].
  rewrite IH by done. destruct (parent !! k'); [|done]. by apply lookup_insert_ne.
Qed.

Lemma resolved_lookup_missing parent names ks n :
  parent !! n = None → resolved parent names ks !! n = names !! n.
Proof.
  revert names. unfold resolved.
  induction ks as [|k ks IH]; intros names He; [done|]. simpl.
  destruct (parent !! k) as [e'|] eqn:Hk; [|by apply IH].
  rewrite IH by done. apply lookup_insert_ne. congruence.
Qed.

Lemma resolved_lookup_other parent names ks n :
  n ∉ ks → resolved parent names ks !! n = names !! n.
Proof.
  revert names. unfold resolved.
  induction ks as [|k ks IH]; intros names Hin; [done|]. simpl.
  apply not_elem_of_cons in Hin as [Hne Hks].
  rewrite IH by done. destruct (parent !! k); [|done]. by apply lookup_insert_ne.
Qed.

Lemma resolved_dom parent names ks :
  (∀ n, n ∈ ks → n ∈ dom names) → dom (resolved parent names ks) = dom names.
Proof.
  intros Hks. apply set_eq. intros n. rewrite !elem_of_dom.
  destruct (decide (n ∈ ks)) as [Hin|Hin].
  - destruct (parent !! n) as [e|] eqn:He.
    + rewrite (resolved_lookup_found _ _ _ _ _ Hin He).
      apply Hks, elem_of_dom in Hin. split; eauto.
    + by rewrite resolved_lookup_missing.
  - by rewrite resolved_lookup_other.
Qed.

Lemma elem_of_unknown parent ks diag :
  diag ∈ unknown parent ks ↔
  ∃ n, diag = UnknownAttributeError n ∧ n ∈ ks ∧ parent !! n = None ∧ n ≠ "links".
Proof.
  unfold unknown. rewrite list_elem_of_fmap. split.
  - intros (n & -> & Hn). apply list_elem_of_filter in Hn.
    destruct Hn as [[Hp Hl] Hin]. by exists n.
  - intros (n & -> & Hn & ? & ?). exists n. split; [done|].
    by apply list_elem_of_filter.
Qed.

Lemma range_keys_dom (names : gmap string loc) :
  range_keys names ≡ₚ (map_to_list names).*1 →
  ∀ n, n ∈ range_keys names ↔ n ∈ dom names.
Proof.
  intros Hperm n. rewrite Hperm, elem_of_dom, list_elem_of_fmap. split.
  - intros ([k v] & -> & Hin). apply elem_of_map_to_list in Hin. eauto.
  - intros [v Hv]. exists (n, v). split; [done|]. by apply elem_of_map_to_list.
Qed.

(** *** Storing a view *)

(** The view that [View] stores for the attribute definition [at_]. *)
Local Abbreviation the_view mt name at_ :=
  {| design.View_AttributeDefinition := at_; design.View_Name := name;
     design.View_Parent := mt |}.

Lemma View_store_object mt name at_ st ty o names mto d views :
  design.attrType (heap st) at_ = Ok (Some ty) →
  design.ToObject (heap st) ty = Ok (Some o) →
  design.objs (heap st) !! o = Some names →
  View_parentObject mt st = Ok mto →
  mediaType st mt = Some d →
  design.Views d = Some views →
  View_store mt name at_ st =
    Ok (set_heap (design.set_mtypes
          (insert mt (design.with_Views (Some (<[name := the_view mt name at_]> views)) d)))
        (set_Errors (Errors st ++ unknown (contents st mto) (range_keys names))
           (set_heap (design.set_objs
              (insert o (resolved (contents st mto) names (range_keys names)))) st))).
Proof.
  intros Hat Hty Ho Hp Hmt Hv. unfold dsl.View_store.
  rewrite Hat. simpl. rewrite Hty. simpl. rewrite Hp. simpl. rewrite Ho. simpl.
  rewrite (View_resolve_loop _ _ _ _ _ Ho).
  unfold mediaType in *. simpl_state. rewrite Hmt. simpl. rewrite Hv. done.
Qed.

Lemma View_store_other mt name at_ st ty d views :
  design.attrType (heap st) at_ = Ok (Some ty) →
  design.ToObject (heap st) ty = Ok None →
  mediaType st mt = Some d →
  design.Views d = Some views →
  View_store mt name at_ st =
    Ok (set_heap (design.set_mtypes
          (insert mt (design.with_Views (Some (<[name := the_view mt name at_]> views)) d)))
        st).
Proof.
  intros Hat Hty Hmt Hv. unfold dsl.View_store.
  rewrite Hat. simpl. rewrite Hty. simpl. rewrite Hmt. simpl. by rewrite Hv.
Qed.

Lemma view_stored mt name v views d st :
  view (set_heap (design.set_mtypes
          (insert mt (design.with_Views (Some (<[name := v]> views)) d))) st) mt name
  = Some v.
Proof.
  unfold view, mediaType. simpl_state. rewrite lookup_insert_eq. simpl.
  apply lookup_insert_eq.
Qed.

(** The object the names of a view are looked up in: the object of the
    media type, or the object of the element of a collection. *)
Lemma View_parentObject_object mt st t p :
  design.mediaTypeType (heap st) mt = Ok t →
  design.ToObject (heap st) t = Ok (Some p) →
  View_parentObject mt st = Ok (Some p).
Proof. intros Ht Hp. unfold View_parentObject. rewrite Ht. simpl. by rewrite Hp. Qed.

Lemma View_parentObject_array mt st t elem te mto :
  design.mediaTypeType (heap st) mt = Ok t →
  design.ToArray (heap st) t = Ok (Some elem) →
  design.attrType (heap st) elem = Ok (Some te) →
  design.ToObject (heap st) te = Ok mto →
  View_parentObject mt st = Ok mto.
Proof.
  intros Ht Ha He Hp. unfold View_parentObject. rewrite Ht. simpl.
  destruct (ToArray_IsArray _ _ _ Ha) as (_ & _ & ->). simpl.
  rewrite Ha. simpl. rewrite He. simpl. done.
Qed.

Lemma View_prepare_view mt d st st1 at_ m n :
  mediaType st mt = Some d →
  View_prepare mt d st = (st1, at_) →
  view st1 m n = view st m n.
Proof.
  intros Hmt Hprep.
  destruct (View_prepare_spec _ _ _ _ _ Hmt Hprep) as (_ & _ & _ & _ & Hmt1 & Hother & _).
  unfold view. destruct (decide (m = mt)) as [->|Hne].
  - rewrite Hmt1, Hmt. simpl. destruct (design.Views d); simpl; by rewrite ?lookup_empty.
  - by rewrite Hother.
Qed.

(** [View(name)] without a block, inside a collection whose element is of
    the media type [pa]: the view of that name of [pa] is stored, or
    reported as unknown. *)
Lemma View_inherit_step name st mt e pa d t ed st1 at0 :
  current st = Some (MediaTypeCtx mt) →
  mediaType st mt = Some d →
  design.mediaTypeType (heap st) mt = Ok t →
  design.ToArray (heap st) t = Ok (Some (Some e)) →
  design.attrs (heap st) !! e = Some ed →
  design.Type_ ed = Some (design.MediaTypeRef pa) →
  is_Some (mediaType st pa) →
  view st mt name = None →
  View_prepare mt d st = (st1, at0) →
  View name [] st =
    match view st pa name with
    | Some v => View_store mt name (design.View_AttributeDefinition v) st1
    | None => Ok (ReportError (UnknownViewError name) st1)
    end.
Proof.
  intros Hcur Hmt Ht Harr He Hed [pd Hpa] Hview Hprep.
  destruct (ToArray_IsArray _ _ _ Harr) as (HA & HO & HTO).
  destruct (View_prepare_spec _ _ _ _ _ Hmt Hprep)
    as (Hext & Hfresh & Hattrs & Hobjs & Hmt1 & Hother & Herr & _).
  assert (design.attrs (heap st1) !! e = Some ed) as He1.
  { rewrite Hattrs, lookup_insert_ne; [done|]. intros ->. congruence. }
  assert (∃ pd1, mediaType st1 pa = Some pd1) as [pd1 Hpa1].
  { destruct (decide (pa = mt)) as [->|Hne]; [eauto|]. rewrite Hother by done. eauto. }
  rewrite (View_enter name [] st mt d t) by eauto.
  rewrite Hprep. cbn [fst snd]. unfold dsl.View_build.
  rewrite (mediaTypeType_extends _ _ _ _ Hext Ht). simpl.
  rewrite (IsArray_extends _ _ _ _ Hext HA). simpl.
  rewrite (ToArray_extends _ _ _ _ Hext Harr). simpl.
  rewrite He1. simpl. rewrite Hed, Hpa1. simpl.
  rewrite <- (View_prepare_view mt d st st1 at0 pa name Hmt Hprep).
  unfold view. rewrite Hpa1. simpl.
  by destruct (design.Views pd1 ≫= λ vs, vs !! name).
Qed.

(** C4. When [View] builds a view, inside a media type that is an object
    or an array and holds no view of that name, whether the view comes
    from a block that leaves its attribute definition with an object of
    names, or, without a block, from the view of that name of the element
    of a collection: every name of that object found in the attributes of
    the media type (the attributes of its element when the media type is
    an array) now refers to the attribute definition the media type has
    under that name, the very same store cell; every name not found keeps
    its entry and, unless it is "links", has "unknown attribute" recorded
    for it; no other diagnostic is recorded; and the view is stored under
    its name. *)
Theorem View_resolves_attributes (name : string) (st : State) (mt : loc)
    (d : design.MediaTypeDefinition) (t : design.DataType) :
  (∀ m, range_keys m ≡ₚ (map_to_list m).*1) →
  current st = Some (MediaTypeCtx mt) →
  mediaType st mt = Some d →
  design.mediaTypeType (heap st) mt = Ok t →
  (design.IsObject (heap st) t = Ok true
   ∨ design.IsObject (heap st) t = Ok false ∧ design.IsArray (heap st) t = Ok true) →
  view st mt name = None →
  (∀ (f : nat) (fs : list nat) (st1 st2 : State) (at_ o : loc)
     (t2 ty : design.DataType) (names : gmap string loc) (mto : option loc),
     View_prepare mt d st = (st1, at_) →
     executeDSL run (Some f) (AttributeCtx at_) st1 = Ok (st2, true) →
     design.attrType (heap st2) (Some at_) = Ok (Some ty) →
     design.ToObject (heap st2) ty = Ok (Some o) →
     design.objs (heap st2) !! o = Some names →
     design.mediaTypeType (heap st2) mt = Ok t2 →
     (design.ToObject (heap st2) t2 = Ok mto ∧ is_Some mto
      ∨ ∃ elem te, design.ToArray (heap st2) t2 = Ok (Some elem)
                   ∧ design.attrType (heap st2) elem = Ok (Some te)
                   ∧ design.ToObject (heap st2) te = Ok mto) →
     is_Some (mediaType st2 mt ≫= design.Views) →
     let parent := contents st2 mto in
     ∃ st' names',
       View name (f :: fs) st = Ok st'
       ∧ design.objs (heap st') !! o = Some names'
       ∧ dom names' = dom names
       ∧ (∀ n e, n ∈ dom names → parent !! n = Some e → names' !! n = Some e)
       ∧ (∀ n, parent !! n = None → names' !! n = names !! n)
       ∧ (∀ n, n ∈ dom names → parent !! n = None → n ≠ "links" →
               UnknownAttributeError n ∈ Errors st')
       ∧ (∀ diag, diag ∈ Errors st' ↔
            diag ∈ Errors st2
            ∨ ∃ n, diag = UnknownAttributeError n ∧ n ∈ dom names
                   ∧ parent !! n = None ∧ n ≠ "links")
       ∧ view st' mt name = Some (the_view mt name (Some at_))
       ∧ design.attrs (heap st') = design.attrs (heap st2))
  ∧ (∀ (e pa at_ o : loc) (ed : design.AttributeDefinition)
       (v : design.ViewDefinition) (ty : design.DataType)
       (names : gmap string loc) (mto : option loc),
       design.ToArray (heap st) t = Ok (Some (Some e)) →
       design.attrs (heap st) !! e = Some ed →
       design.Type_ ed = Some (design.MediaTypeRef pa) →
       view st pa name = Some v →
       design.View_AttributeDefinition v = Some at_ →
       design.attrType (heap st) (Some at_) = Ok (Some ty) →
       design.ToObject (heap st) ty = Ok (Some o) →
       design.objs (heap st) !! o = Some names →
       design.ToObject (heap st) (design.MediaTypeRef pa) = Ok mto →
       let parent := contents st mto in
       ∃ st' names',
         View name [] st = Ok st'
         ∧ design.objs (heap st') !! o = Some names'
         ∧ dom names' = dom names
         ∧ (∀ n e, n ∈ dom names → parent !! n = Some e → names' !! n = Some e)
         ∧ (∀ n, parent !! n = None → names' !! n = names !! n)
         ∧ (∀ n, n ∈ dom names → parent !! n = None → n ≠ "links" →
                 UnknownAttributeError n ∈ Errors st')
         ∧ (∀ diag, diag ∈ Errors st' ↔
              diag ∈ Errors st
              ∨ ∃ n, diag = UnknownAttributeError n ∧ n ∈ dom names
                     ∧ parent !! n = None ∧ n ≠ "links")
         ∧ view st' mt name = Some (the_view mt name (Some at_))
         ∧ (∀ a ad, design.attrs (heap st) !! a = Some ad →
                    design.attrs (heap st') !! a = Some ad)).
Proof.
  intros Hperm Hcur Hmt Ht Hguard Hview.
  assert (∀ (s : State) (names parent : gmap string loc) diag,
            diag ∈ (Errors s ++ unknown parent (range_keys names))%list ↔
            diag ∈ Errors s
            ∨ ∃ n, diag = UnknownAttributeError n ∧ n ∈ dom names
                   ∧ parent !! n = None ∧ n ≠ "links") as Herr.
  { intros s names parent diag.
    pose proof (range_keys_dom names (Hperm names)) as Hks.
    rewrite elem_of_app, elem_of_unknown.
    split; (intros [?|(n & ? & Hn & ?)]; [by left|right; exists n]).
    - by apply Hks in Hn.
    - by apply Hks in Hn. }
  split.
  - intros f fs st1 st2 at_ o t2 ty names mto Hprep Hrun Hat Hty Ho Ht2 Hparent
      [views Hviews] parent.
    destruct (mediaType st2 mt) as [d2|] eqn:Hmt2; [|done]. simpl in Hviews.
    assert (View_parentObject mt st2 = Ok mto) as Hp.
    { destruct Hparent as [[Hobj [p ->]]|(elem & te & Ha & He & Hobj)].
      - by eapply View_parentObject_object.
      - by eapply View_parentObject_array. }
    rewrite (View_enter name (f :: fs) st mt d t) by done.
    rewrite Hprep. cbn [fst snd]. unfold dsl.View_build. rewrite Hrun. simpl.
    rewrite (View_store_object _ _ _ _ _ _ _ _ _ _ Hat Hty Ho Hp Hmt2 Hviews).
    pose proof (range_keys_dom names (Hperm names)) as Hks.
    eexists _, (resolved parent names (range_keys names)).
    split; [reflexivity|]. simpl_state.
    split; [apply lookup_insert_eq|].
    split; [apply resolved_dom; intros n; apply Hks|].
    split; [intros n e Hn; apply resolved_lookup_found; by apply Hks|].
    split; [intros n; apply resolved_lookup_missing|].
    split; [intros n Hn Hnone Hl; apply Herr; right; by exists n|].
    split; [apply Herr|].
    split; [apply view_stored|done].
  - intros e pa at_ o ed v ty names mto Harr He Hed Hv Hat Hty Hoo Hnames Hmto parent.
    assert (is_Some (mediaType st pa)) as Hpa.
    { unfold view in Hv. destruct (mediaType st pa); [eauto|done]. }
    destruct (View_prepare mt d st) as [st1 at0] eqn:Hprep.
    destruct (View_prepare_spec _ _ _ _ _ Hmt Hprep)
      as (Hext & Hfresh & Hattrs & Hobjs & Hmt1 & Hother & Herrs & _).
    rewrite (View_inherit_step name st mt e pa d t ed st1 at0) by done.
    rewrite Hv, Hat.
    assert (design.attrs (heap st1) !! e = Some ed) as He1.
    { rewrite Hattrs, lookup_insert_ne; [done|]. intros ->. congruence. }
    assert (View_parentObject mt st1 = Ok mto) as Hp.
    { eapply View_parentObject_array.
      - by apply (mediaTypeType_extends _ _ _ _ Hext Ht).
      - by apply (ToArray_extends _ _ _ _ Hext Harr).
      - unfold design.attrType. simpl. rewrite He1. simpl. by rewrite Hed.
      - by apply (ToObject_extends _ _ _ _ Hext Hmto). }
    pose proof (attrType_extends _ _ _ _ Hext Hty) as Hty1.
    pose proof (ToObject_extends _ _ _ _ Hext Hoo) as Hoo1.
    rewrite <- Hobjs in Hnames.
    rewrite (View_store_object _ _ _ _ _ _ _ _ _ _ Hty1 Hoo1 Hnames Hp Hmt1 eq_refl).
    assert (contents st1 mto = parent) as ->
      by (unfold parent, contents; by rewrite Hobjs).
    pose proof (range_keys_dom names (Hperm names)) as Hks.
    eexists _, (resolved parent names (range_keys names)).
    split; [reflexivity|]. simpl_state.
    split; [apply lookup_insert_eq|].
    split; [apply resolved_dom; intros n; apply Hks|].
    split; [intros n e' Hn; apply resolved_lookup_found; by apply Hks|].
    split; [intros n; apply resolved_lookup_missing|].
    rewrite Herrs.
    split; [intros n Hn Hnone Hl; apply Herr; right; by exists n|].
    split; [apply Herr|].
    split; [apply view_stored|].
    intros a ad Ha. rewrite Hattrs, lookup_insert_ne; [done|]. intros <-. congruence.
Qed.

(** C5, as the code has it. Inside a collection media type (an array whose
    element is of a media type) that holds no view of that name,
    [View(name)] without a block stores under that name a view on the
    attribute definition of the view the element media type has under that
    name, with the collection as parent, and leaves the other views of the
    collection alone; when the element media type has no view of that name
    the call records "unknown view" (an [UnknownView]) and nothing else,
    and the collection holds the views it held, none under that name. *)
Theorem View_inherited_from_element (name : string) (st : State) (mt e pa : loc)
    (d : design.MediaTypeDefinition) (t : design.DataType)
    (ed : design.AttributeDefinition) :
  current st = Some (MediaTypeCtx mt) →
  mediaType st mt = Some d →
  design.mediaTypeType (heap st) mt = Ok t →
  design.ToArray (heap st) t = Ok (Some (Some e)) →
  design.attrs (heap st) !! e = Some ed →
  design.Type_ ed = Some (design.MediaTypeRef pa) →
  is_Some (mediaType st pa) →
  view st mt name = None →
  (∀ v at_ ty oo mto,
     view st pa name = Some v →
     design.View_AttributeDefinition v = Some at_ →
     design.attrType (heap st) (Some at_) = Ok (Some ty) →
     design.ToObject (heap st) ty = Ok oo →
     (∀ o, oo = Some o → is_Some (design.objs (heap st) !! o)) →
     design.ToObject (heap st) (design.MediaTypeRef pa) = Ok mto →
     ∃ st',
       View name [] st = Ok st'
       ∧ view st' mt name = Some (the_view mt name (design.View_AttributeDefinition v))
       ∧ (∀ n, n ≠ name → view st' mt n = view st mt n)
       ∧ (pa ≠ mt → view st' pa name = Some v))
  ∧ (view st pa name = None →
     ∃ st',
       View name [] st = Ok st'
       ∧ Errors st' = (Errors st ++ [UnknownViewError name])%list
       ∧ kind (UnknownViewError name) = UnknownView
       ∧ (∀ n, view st' mt n = view st mt n)
       ∧ view st' mt name = None).
Proof.
  intros Hcur Hmt Ht Harr He Hed [pd Hpa] Hview.
  destruct (ToArray_IsArray _ _ _ Harr) as (HA & HO & HTO).
  destruct (View_prepare mt d st) as [st1 at0] eqn:Hprep.
  destruct (View_prepare_spec _ _ _ _ _ Hmt Hprep)
    as (Hext & Hfresh & Hattrs & Hobjs & Hmt1 & Hother & Herr & _).
  pose proof (λ m n, View_prepare_view mt d st st1 at0 m n Hmt Hprep) as Hv1.
  assert (design.attrs (heap st1) !! e = Some ed) as He1.
  { rewrite Hattrs, lookup_insert_ne; [done|]. intros ->. congruence. }
  assert (∃ pd1, mediaType st1 pa = Some pd1) as [pd1 Hpa1].
  { destruct (decide (pa = mt)) as [->|Hne]; [eauto|]. rewrite Hother by done. eauto. }
  assert (View name [] st =
          match view st pa name with
          | Some v => View_store mt name (design.View_AttributeDefinition v) st1
          | None => Ok (ReportError (UnknownViewError name) st1)
          end) as HView.
  { rewrite (View_enter name [] st mt d t) by eauto.
    rewrite Hprep. cbn [fst snd]. unfold dsl.View_build.
    rewrite (mediaTypeType_extends _ _ _ _ Hext Ht). simpl.
    rewrite (IsArray_extends _ _ _ _ Hext HA). simpl.
    rewrite (ToArray_extends _ _ _ _ Hext Harr). simpl.
    rewrite He1. simpl. rewrite Hed, Hpa1. simpl.
    rewrite <- (Hv1 pa name). unfold view. rewrite Hpa1. simpl.
    by destruct (design.Views pd1 ≫= λ vs, vs !! name). }
  rewrite HView. split.
  - intros v at_ ty oo mto Hv Hat Hty Hoo Hobj Hmto. rewrite Hv, Hat.
    assert (View_parentObject mt st1 = Ok mto) as Hp.
    { eapply View_parentObject_array.
      - by apply (mediaTypeType_extends _ _ _ _ Hext Ht).
      - by apply (ToArray_extends _ _ _ _ Hext Harr).
      - unfold design.attrType. simpl. rewrite He1. simpl. by rewrite Hed.
      - by apply (ToObject_extends _ _ _ _ Hext Hmto). }
    pose proof (attrType_extends _ _ _ _ Hext Hty) as Hty1.
    pose proof (ToObject_extends _ _ _ _ Hext Hoo) as Hoo1.
    assert (∃ st', View_store mt name (Some at_) st1 =
              Ok (set_heap (design.set_mtypes
                    (insert mt (design.with_Views
                       (Some (<[name := the_view mt name (Some at_)]>
                                (default ∅ (design.Views d)))) 
                       (design.with_Views (Some (default ∅ (design.Views d))) d))))
                  st')
            ∧ mediaType st' pa = mediaType st1 pa
            ∧ mediaType st' mt = mediaType st1 mt) as (st' & -> & Hpa' & Hmt').
    { destruct oo as [o|].
      - destruct (Hobj o eq_refl) as [names Hnames]. rewrite <- Hobjs in Hnames.
        rewrite (View_store_object _ _ _ _ _ _ _ _ _ _ Hty1 Hoo1 Hnames Hp Hmt1 eq_refl).
        eexists; split; [reflexivity|]. done.
      - rewrite (View_store_other _ _ _ _ _ _ _ Hty1 Hoo1 Hmt1 eq_refl).
        eexists; split; [reflexivity|]. done. }
    eexists; split; [reflexivity|]. split; [apply view_stored|]. split.
    + intros n Hn. rewrite <- (Hv1 mt n). unfold view at 2. rewrite Hmt1. simpl.
      unfold view, mediaType. simpl_state. rewrite lookup_insert_eq. simpl.
      by rewrite lookup_insert_ne.
    + intros Hne. unfold view, mediaType. simpl_state. rewrite lookup_insert_ne by done.
      fold (mediaType st' pa). rewrite Hpa'. fold (view st1 pa name). by rewrite Hv1.
  - intros Hnone. rewrite Hnone. eexists; split; [reflexivity|]. simpl. rewrite Herr.
    split; [done|]. split; [done|].
    assert (∀ n, view (ReportError (UnknownViewError name) st1) mt n = view st mt n)
      as Hsame by (intros n; apply (Hv1 mt n)).
    split; [done|]. by rewrite Hsame.
Qed.

(** ** Collections *)

(** C3. For a media type [m] whose identifier the parser accepts, in a run
    whose registry exists, [CollectionOf(m)] returns a new media type whose
    identifier is the formatted media type of [m] with a [type] parameter,
    "collection" when the identifier of [m] has none and the parameters of
    [m] unchanged when it has one, whose type name is the type name of [m]
    followed by "Collection", and which is registered under its
    identifier. *)
Theorem CollectionOf_type_parameter_and_name (m : loc) (md : design.MediaTypeDefinition)
    (mediatype : string) (params : gmap string string) (st : State)
    (reg : gmap string loc) :
  mediaType st m = Some md →
  ParseMediaType (design.Identifier md) = (mediatype, params, None) →
  Design st = Some {| design.MediaTypes := Some reg |} →
  let base := if contains_char slash mediatype then mediatype else mediatype ++ "/json" in
  ∃ st' mt cd params',
    CollectionOf (Some m) [] st = Ok (st', Some mt)
    ∧ mediaType st' mt = Some cd
    ∧ design.Identifier cd = FormatMediaType base params'
    ∧ is_Some (params' !! "type")
    ∧ (params !! "type" = None → params' = <["type" := "collection"]> params)
    ∧ (∀ v, params !! "type" = Some v → params' = params)
    ∧ design.TypeName (design.UserTypeDefinition_ cd)
      = design.TypeName (design.UserTypeDefinition_ md) ++ "Collection"
    ∧ registry st' !! design.Identifier cd = Some mt
    ∧ mediaType st' m = Some md
    ∧ Errors st' = Errors st.
Proof.
  intros Hm Hparse HD base.
  set (params' := if bool_decide ("type" ∈ dom params) then params
                  else <["type" := "collection"]> params).
  assert (is_Some (params' !! "type")
          ∧ (params !! "type" = None → params' = <["type" := "collection"]> params)
          ∧ (∀ v, params !! "type" = Some v → params' = params))
    as (Htype & Hnone & Hsome).
  { unfold params'. case_bool_decide as Hin.
    - split; [by apply elem_of_dom|]. split; [|done].
      intros Hn. apply not_elem_of_dom in Hn. done.
    - split; [rewrite lookup_insert_eq; eauto|]. split; [done|].
      intros v Hv. destruct Hin. apply elem_of_dom. eauto. }
  assert (fresh (dom (design.mtypes (heap st))) ≠ m) as Hfresh.
  { intros Heq. pose proof (is_fresh (dom (design.mtypes (heap st)))) as Hf.
    rewrite Heq in Hf. apply Hf, elem_of_dom. unfold mediaType in Hm. eauto. }
  unfold dsl.CollectionOf. simpl. rewrite Hm. simpl. rewrite Hparse.
  fold base. fold params'.
  unfold design.NewMediaTypeDefinition, design.new_obj, design.new_attr, design.new_mtype.
  simpl_state. cbv zeta.
  unfold executeBlock, run_func, dsl.CollectionOf_dsl, mediaTypeDefinition, current.
  simpl_state. rewrite last_snoc. unfold mediaType. simpl_state.
  rewrite lookup_insert_eq. simpl.
  destruct (ctxStack st ++ [MediaTypeCtx (fresh (dom (design.mtypes (heap st))))])%list
    as [|c cs] eqn:Hstack; [by destruct (ctxStack st)|].
  rewrite bool_decide_eq_true_2 by done. simpl. rewrite HD. simpl.
  eexists _, _, _, params'. split; [reflexivity|]. simpl_state.
  unfold registry. simpl_state. rewrite lookup_insert_eq. simpl.
  split; [reflexivity|]. simpl.
  split; [done|]. split; [done|]. split; [done|]. split; [done|]. split; [done|].
  split; [apply lookup_insert_eq|].
  split; [|done]. rewrite lookup_insert_ne by done.
  by rewrite lookup_insert_ne.
Qed.

(** * Further properties of the DSL *)

(** ** Declaring media types *)

Lemma topLevel_not_top caller st :
  ctxStack st ≠ [] →
  topLevelDefinition true caller st = (ReportError (IncompatibleDSL caller) st, false).
Proof.
  intros Hne. unfold topLevelDefinition.
  by rewrite bool_decide_eq_false_2.
Qed.

Lemma MediaType_top_fresh_state identifier dsl st :
  ctxStack st = [] →
  registry st !! canonical identifier = None →
  let name := derivedTypeName Camelize (canonical identifier) in
  let typeName :=
    if decide (name = "")
    then "MediaType" ++ pretty (wrap_int (mediaTypeCount st + 1)) else name in
  let o := fresh (dom (design.objs (heap st))) in
  let a := fresh (dom (design.attrs (heap st))) in
  let mt := fresh (dom (design.mtypes (heap st))) in
  let d := {| design.UserTypeDefinition_ :=
                {| design.AttributeDefinition_ := Some a; design.TypeName := typeName;
                   design.DSL := design.UserFunc <$> dsl |};
              design.Identifier := canonical identifier;
              design.Links := None; design.Views := None |} in
  ∃ st',
    MediaType identifier dsl st = (st', Some mt)
    ∧ registry st' = <[canonical identifier := mt]> (registry st)
    ∧ design.mtypes (heap st') = <[mt := d]> (design.mtypes (heap st))
    ∧ design.attrs (heap st')
      = <[a := {| design.Type_ := Some (design.Object o); design.Reference := None;
                  design.View := "" |}]> (design.attrs (heap st))
    ∧ design.objs (heap st') = <[o := ∅]> (design.objs (heap st))
    ∧ design.utypes (heap st') = design.utypes (heap st)
    ∧ design.resps (heap st') = design.resps (heap st)
    ∧ Errors st' = Errors (MediaType_pre identifier st)
    ∧ mediaTypeCount st' = mediaTypeCount (MediaType_pre identifier st)
    ∧ ctxStack st' = [].
Proof.
  intros Hctx Hreg.
  unfold dsl.MediaType, dsl.MediaType_pre, topLevelDefinition, dsl.canonical in *.
  destruct (MediaType_init_spec st) as (reg & -> & ->). simpl.
  rewrite Hctx. simpl.
  destruct (ParseMediaType identifier) as [[i p] [e|]]; case_decide; simpl;
    unfold registry at 1; simpl; rewrite Hreg;
    unfold design.NewMediaTypeDefinition, design.new_obj, design.new_attr,
      design.new_mtype; simpl;
    (eexists; split; [reflexivity|]; simpl; by repeat split).
Qed.

Lemma MediaType_pre_count identifier st :
  mediaTypeCount (MediaType_pre identifier st) =
    if decide (derivedTypeName Camelize (canonical identifier) = "")
    then wrap_int (mediaTypeCount st + 1) else mediaTypeCount st.
Proof.
  unfold dsl.MediaType_pre.
  destruct (ParseMediaType identifier) as [[i p] [e|]]; by case_decide.
Qed.

(** X1. A call of [MediaType] at top level with an identifier whose
    canonical form is not registered returns a handle that was not in use,
    registers it under the canonical form beside the entries there were,
    and leaves the other media types alone. The new media type has the
    canonical form as identifier, the closure it was given, no links, no
    views, and an empty object as its type; its type name is the name the
    identifier gives or, when that is empty, "MediaType" followed by the
    incremented counter. *)
Theorem MediaType_registers (identifier : string) (dsl : option nat) (st : State) :
  ctxStack st = [] →
  registry st !! canonical identifier = None →
  ∃ st' mt d o,
    MediaType identifier dsl st = (st', Some mt)
    ∧ mediaType st mt = None
    ∧ registry st' = <[canonical identifier := mt]> (registry st)
    ∧ mediaType st' mt = Some d
    ∧ design.Identifier d = canonical identifier
    ∧ design.TypeName (design.UserTypeDefinition_ d)
      = (if decide (derivedTypeName Camelize (canonical identifier) = "")
         then "MediaType" ++ pretty (wrap_int (mediaTypeCount st + 1))
         else derivedTypeName Camelize (canonical identifier))
    ∧ design.DSL (design.UserTypeDefinition_ d) = design.UserFunc <$> dsl
    ∧ design.Links d = None
    ∧ design.Views d = None
    ∧ design.mediaTypeType (heap st') mt = Ok (design.Object o)
    ∧ design.objs (heap st') !! o = Some ∅
    ∧ (∀ m, m ≠ mt → mediaType st' m = mediaType st m)
    ∧ ctxStack st' = [].
Proof.
  intros Hctx Hreg.
  destruct (MediaType_top_fresh_state identifier dsl st Hctx Hreg)
    as (st' & -> & Hr & Hm & Ha & Ho & _ & _ & _ & _ & Hc).
  eexists st', _, _, _. split; [reflexivity|].
  unfold mediaType, design.mediaTypeType, design.userType, design.attrType.
  rewrite Hm, Ha, Ho, !lookup_insert_eq. simpl. rewrite lookup_insert_eq. simpl.
  split; [apply not_elem_of_dom, is_fresh|].
  repeat (split; [done|]). split; [|done].
  intros m Hne. by rewrite lookup_insert_ne.
Qed.

(** X2. A call of [MediaType] while a definition is being evaluated (the
    context stack is not empty) returns nil and records "invalid use of
    MediaType" only; the registry holds what it held, and the store, the
    context stack and the counter are as they were. The identifier is
    not even parsed. *)
Theorem MediaType_not_top_level (identifier : string) (dsl : option nat) (st : State) :
  ctxStack st ≠ [] →
  ∃ st',
    MediaType identifier dsl st = (st', None)
    ∧ Errors st' = (Errors st ++ [IncompatibleDSL "MediaType"])%list
    ∧ registry st' = registry st
    ∧ heap st' = heap st
    ∧ ctxStack st' = ctxStack st
    ∧ mediaTypeCount st' = mediaTypeCount st.
Proof.
  intros Hctx. unfold dsl.MediaType.
  destruct (MediaType_init_spec st) as (reg & -> & ->).
  rewrite topLevel_not_top by done.
  eexists; split; [reflexivity|]. by repeat split.
Qed.

(** X3. Two calls of [MediaType] at top level, the first with an
    identifier whose canonical form is free and the second with an
    identifier of the same canonical form: the first returns a handle,
    the second returns nil and records "is defined twice", and after the
    second call the registry and the store are those the first call left,
    with the canonical form still leading to the first handle. *)
Theorem MediaType_twice (id1 id2 : string) (dsl1 dsl2 : option nat) (st : State) :
  ctxStack st = [] →
  registry st !! canonical id1 = None →
  canonical id2 = canonical id1 →
  ∃ st1 mt st2,
    MediaType id1 dsl1 st = (st1, Some mt)
    ∧ MediaType id2 dsl2 st1 = (st2, None)
    ∧ MediaTypeDefinedTwice (canonical id1) ∈ Errors st2
    ∧ registry st2 = registry st1
    ∧ registry st2 !! canonical id1 = Some mt
    ∧ heap st2 = heap st1.
Proof.
  intros Hctx Hreg Hcan.
  destruct (MediaType_top_fresh id1 dsl1 st Hctx Hreg)
    as (st1 & mt & d & Hcall1 & Hr1 & _ & _ & _ & _ & Hctx1).
  assert (registry st1 !! canonical id2 = Some mt) as Hreg1
    by (rewrite Hr1, Hcan; apply lookup_insert_eq).
  destruct (MediaType_top_registered id2 dsl2 st1 Hctx1)
    as (st2 & Hcall2 & HD & Hh & He); [eauto|].
  assert (registry st2 = registry st1) as Hr2 by (unfold registry; by rewrite HD).
  exists st1, mt, st2. split; [done|]. split; [done|].
  split; [rewrite He, Hcan; apply elem_of_app; right; constructor|].
  split; [done|]. split; [|done]. by rewrite Hr2, <- Hcan.
Qed.

Lemma wrap_int_succ n :
  (- 2 ^ 63 ≤ n < 2 ^ 63 - 1)%Z → wrap_int (n + 1) = (n + 1)%Z.
Proof.
  intros Hn. unfold wrap_int.
  rewrite Z.mod_small by lia. lia.
Qed.

(** X4. The counter of anonymous media types. A call of [MediaType] at
    top level with an identifier that gives no type name increments the
    counter, by one as long as the counter is below the largest [int],
    whether the declaration is registered or refused as a duplicate; with
    an identifier that gives a type name the counter is not touched. *)
Theorem MediaType_counter (identifier : string) (dsl : option nat) (st : State) :
  ctxStack st = [] →
  let st' := (MediaType identifier dsl st).1 in
  (derivedTypeName Camelize (canonical identifier) = "" →
     (- 2 ^ 63 ≤ mediaTypeCount st < 2 ^ 63 - 1)%Z →
     mediaTypeCount st' = (mediaTypeCount st + 1)%Z)
  ∧ (derivedTypeName Camelize (canonical identifier) ≠ "" →
     mediaTypeCount st' = mediaTypeCount st).
Proof.
  intros Hctx st'.
  assert (mediaTypeCount st' = mediaTypeCount (MediaType_pre identifier st)) as Hcount.
  { unfold st'. destruct (registry st !! canonical identifier) as [l|] eqn:Hreg.
    - unfold dsl.MediaType, dsl.MediaType_pre, topLevelDefinition, dsl.canonical in *.
      destruct (MediaType_init_spec st) as (reg & Hinit & ->).
      revert Hinit. intros ->. simpl. rewrite Hctx. simpl.
      destruct (ParseMediaType identifier) as [[i p] [e|]]; case_decide; simpl;
        unfold registry at 1; simpl; by rewrite Hreg.
    - destruct (MediaType_top_fresh_state identifier dsl st Hctx Hreg)
        as (st0 & -> & _ & _ & _ & _ & _ & _ & _ & Hc & _). done. }
  rewrite Hcount, MediaType_pre_count. split; intros Hname.
  - intros Hrange. rewrite decide_True by done. by apply wrap_int_succ.
  - by rewrite decide_False.
Qed.

(** ** The type name an identifier gives *)

Lemma split_char_not_nil c s : split_char c s ≠ [].
Proof. destruct s as [|a s]; simpl; [done|]. case_decide; [done|]. by destruct (split_char c s). Qed.

Lemma split_char_absent c s : contains_char c s = false → split_char c s = [s].
Proof.
  induction s as [|a s IH]; simpl; [done|].
  case_decide; [done|]. intros Hs. by rewrite IH.
Qed.

Lemma split_char_app c p s :
  ∃ front, front ≠ [] ∧ split_char c (p ++ String c s) = (front ++ split_char c s)%list.
Proof.
  induction p as [|a p (front & Hne & IH)]; simpl.
  - exists [""]. split; [done|]. by rewrite decide_True.
  - case_decide.
    + exists ("" :: front). split; [done|]. by rewrite IH.
    + rewrite IH. destruct front as [|w ws]; [done|].
      exists (String a w :: ws). done.
Qed.

Lemma split_char_last_app c p s :
  last (split_char c (p ++ String c s)) = last (split_char c s).
Proof.
  destruct (split_char_app c p s) as (front & _ & ->).
  rewrite last_app. destruct (last (split_char c s)) eqn:Hl; [done|].
  apply last_None in Hl. by apply split_char_not_nil in Hl.
Qed.

Lemma split_char_head_app c s r :
  contains_char c s = false → head (split_char c (s ++ String c r)) = Some s.
Proof.
  induction s as [|a s IH]; simpl.
  - by rewrite decide_True.
  - case_decide; [done|]. intros Hs. specialize (IH Hs).
    destruct (split_char c (s ++ String c r)); simpl in *; congruence.
Qed.

Lemma contains_char_app c s r :
  contains_char c (s ++ r) = contains_char c s || contains_char c r.
Proof. induction s as [|a s IH]; simpl; [done|]. by case_decide. Qed.

(** X5. The type name [MediaType] derives from an identifier is the
    camelized part between the last dot and the first slash after it.
    When the identifier has no dot this is the part before the slash, the
    type and not the subtype; parameters that follow the last segment of
    an identifier without a slash after it are part of the name. *)
Theorem derivedTypeName_last_segment (p s r : string) :
  contains_char dot s = false →
  contains_char slash s = false →
  contains_char dot r = false →
  derivedTypeName Camelize (p ++ String dot (s ++ String slash r)) = Camelize s
  ∧ derivedTypeName Camelize (p ++ String dot s) = Camelize s
  ∧ derivedTypeName Camelize (s ++ String slash r) = Camelize s.
Proof.
  intros Hdot Hslash Hr. unfold derivedTypeName.
  assert (contains_char dot (s ++ String slash r) = false) as Hsr.
  { rewrite contains_char_app, Hdot. simpl. by rewrite ?decide_False. }
  split; [|split].
  - rewrite split_char_last_app, (split_char_absent _ _ Hsr). simpl.
    by rewrite split_char_head_app.
  - rewrite split_char_last_app, (split_char_absent _ _ Hdot). simpl.
    by rewrite (split_char_absent _ _ Hslash).
  - rewrite (split_char_absent _ _ Hsr). simpl.
    by rewrite split_char_head_app.
Qed.

(** ** The registry stays consistent *)

Lemma registry_ok_frame st st' :
  registry st' = registry st →
  design.mtypes (heap st') = design.mtypes (heap st) →
  registry_ok st → registry_ok st'.
Proof.
  intros Hr Hm Hok k l. unfold mediaType. rewrite Hr, Hm. apply Hok.
Qed.

(** X6. [MediaType] keeps the registry consistent: if every key of the
    registry leads to a media type whose identifier is that key, the same
    holds after any call of [MediaType], registered, refused or
    misplaced. *)
Theorem MediaType_keeps_registry_ok (identifier : string) (dsl : option nat)
    (st : State) :
  registry_ok st → registry_ok (MediaType identifier dsl st).1.
Proof.
  intros Hok. destruct (decide (ctxStack st = [])) as [Hctx|Hctx].
  - destruct (registry st !! canonical identifier) as [l|] eqn:Hreg.
    + destruct (MediaType_top_registered identifier dsl st Hctx)
        as (st' & -> & HD & Hh & _); [eauto|]. simpl.
      apply (registry_ok_frame st); [unfold registry; by rewrite HD|by rewrite Hh|done].
    + destruct (MediaType_top_fresh_state identifier dsl st Hctx Hreg)
        as (st' & -> & Hr & Hm & _). simpl.
      intros k l. unfold mediaType. rewrite Hr, Hm.
      destruct (decide (k = canonical identifier)) as [->|Hne].
      * rewrite lookup_insert_eq. intros [= <-]. rewrite lookup_insert_eq. eauto.
      * rewrite lookup_insert_ne by done. intros Hl.
        destruct (Hok k l Hl) as (d & Hd & Hid). exists d. split; [|done].
        rewrite lookup_insert_ne; [done|]. intros <-.
        pose proof (is_fresh (dom (design.mtypes (heap st)))) as Hf.
        apply Hf, elem_of_dom. unfold mediaType in Hd. eauto.
  - unfold dsl.MediaType. destruct (MediaType_init_spec st) as (reg & -> & ->).
    rewrite topLevel_not_top by done. by apply (registry_ok_frame st).
Qed.

(** ** Collections *)

(** The identifier and the type name [CollectionOf] gives to the
    collection of [md]. *)
Local Abbreviation collection_id md :=
  (let '(mediatype, params, _) := ParseMediaType (design.Identifier md) in
   FormatMediaType
     (if contains_char slash mediatype then mediatype else mediatype ++ "/json")
     (if bool_decide ("type" ∈ dom params) then params
      else <["type" := "collection"]> params)).

Local Abbreviation collection_name md :=
  (design.TypeName (design.UserTypeDefinition_ md) ++ "Collection").

Lemma CollectionOf_ok m md mediatype params st reg :
  mediaType st m = Some md →
  ParseMediaType (design.Identifier md) = (mediatype, params, None) →
  Design st = Some {| design.MediaTypes := Some reg |} →
  let mt := fresh (dom (design.mtypes (heap st))) in
  ∃ st' a e,
    CollectionOf (Some m) [] st = Ok (st', Some mt)
    ∧ design.mtypes (heap st')
      = <[mt := {| design.UserTypeDefinition_ :=
                     {| design.AttributeDefinition_ := Some a;
                        design.TypeName := collection_name md;
                        design.DSL :=
                          Some (design.CollectionFunc (collection_name md) m []) |};
                   design.Identifier := collection_id md;
                   design.Links := None; design.Views := None |}]>
          (design.mtypes (heap st))
    ∧ design.attrs (heap st') !! a
      = Some {| design.Type_ := Some (design.Array (Some e));
                design.Reference := None; design.View := "" |}
    ∧ design.attrs (heap st') !! e
      = Some {| design.Type_ := Some (design.MediaTypeRef m);
                design.Reference := None; design.View := "" |}
    ∧ design.attrs (heap st) ⊆ design.attrs (heap st')
    ∧ design.utypes (heap st') = design.utypes (heap st)
    ∧ design.resps (heap st') = design.resps (heap st)
    ∧ Design st' = Some {| design.MediaTypes := Some (<[collection_id md := mt]> reg) |}
    ∧ Errors st' = Errors st
    ∧ ctxStack st' = ctxStack st
    ∧ mediaTypeCount st' = mediaTypeCount st.
Proof.
  intros Hm Hparse HD mt. subst mt.
  unfold dsl.CollectionOf. simpl. rewrite Hm. simpl. rewrite Hparse.
  unfold design.NewMediaTypeDefinition, design.new_obj, design.new_attr, design.new_mtype.
  simpl_state. cbv zeta.
  unfold executeBlock, run_func, dsl.CollectionOf_dsl, mediaTypeDefinition, current.
  simpl_state. rewrite last_snoc. unfold mediaType. simpl_state.
  rewrite lookup_insert_eq. simpl.
  destruct (ctxStack st ++ [MediaTypeCtx (fresh (dom (design.mtypes (heap st))))])%list
    as [|c cs] eqn:Hstack; [by destruct (ctxStack st)|].
  rewrite (bool_decide_eq_true_2 (_ ≤ _)%nat) by done. simpl. rewrite HD. simpl.
  eexists _, _, _. split; [reflexivity|]. simpl_state.
  split; [by rewrite insert_insert_eq|].
  split; [apply lookup_insert_eq|].
  set (a0 := fresh (dom (design.attrs (heap st)))).
  set (A1 := <[a0 := _]> (design.attrs (heap st))).
  set (e := fresh (dom A1)). set (A2 := <[e := _]> A1).
  assert (A1 !! e = None) as He by apply not_elem_of_dom, is_fresh.
  assert (A2 !! fresh (dom A2) = None) as Ha by apply not_elem_of_dom, is_fresh.
  split.
  { rewrite lookup_insert_ne; [apply lookup_insert_eq|].
    intros Heq. rewrite Heq in Ha. unfold A2 in Ha.
    by rewrite lookup_insert_eq in Ha. }
  split.
  { etrans; [|by apply insert_subseteq]. etrans; [|by apply insert_subseteq].
    apply insert_subseteq, not_elem_of_dom, is_fresh. }
  do 4 (split; [done|]). split; [|done].
  change (removelast (c :: cs) = ctxStack st). rewrite <- Hstack. apply removelast_last.
Qed.

(** X7. [CollectionOf] on a media type whose identifier the parser
    rejects returns nil and records "invalid media type identifier" with
    that identifier, whatever the block; nothing is created or
    registered, the block is not run. *)
Theorem CollectionOf_unparseable (m : loc) (md : design.MediaTypeDefinition)
    (i e : string) (p : gmap string string) (dsl : list nat) (st : State) :
  mediaType st m = Some md →
  ParseMediaType (design.Identifier md) = (i, p, Some e) →
  ∃ st',
    CollectionOf (Some m) dsl st = Ok (st', None)
    ∧ Errors st' = (Errors st ++ [InvalidIdentifierError (design.Identifier md) e])%list
    ∧ kind (InvalidIdentifierError (design.Identifier md) e) = InvalidIdentifier
    ∧ heap st' = heap st
    ∧ Design st' = Design st
    ∧ ctxStack st' = ctxStack st.
Proof.
  intros Hm Hparse. unfold dsl.CollectionOf. simpl. rewrite Hm. simpl. rewrite Hparse.
  eexists; split; [reflexivity|]. by repeat split.
Qed.

(** X8. For a media type [m] whose identifier the parser accepts, in a run
    whose registry exists, [CollectionOf(m)] returns a handle that was
    not in use, of a media type that is an array whose element is an
    attribute of type [m], with no links and no views; [m] and the other
    media types are left alone, no diagnostic is recorded and the context
    stack is as before. *)
Theorem CollectionOf_builds_array (m : loc) (md : design.MediaTypeDefinition)
    (mediatype : string) (params : gmap string string) (st : State)
    (reg : gmap string loc) :
  mediaType st m = Some md →
  ParseMediaType (design.Identifier md) = (mediatype, params, None) →
  Design st = Some {| design.MediaTypes := Some reg |} →
  ∃ st' mt cd e,
    CollectionOf (Some m) [] st = Ok (st', Some mt)
    ∧ mediaType st mt = None
    ∧ mediaType st' mt = Some cd
    ∧ design.mediaTypeType (heap st') mt = Ok (design.Array (Some e))
    ∧ design.IsArray (heap st') (design.Array (Some e)) = Ok true
    ∧ design.attrType (heap st') (Some e) = Ok (Some (design.MediaTypeRef m))
    ∧ design.Links cd = None
    ∧ design.Views cd = None
    ∧ (∀ other, other ≠ mt → mediaType st' other = mediaType st other)
    ∧ Errors st' = Errors st
    ∧ ctxStack st' = ctxStack st.
Proof.
  intros Hm Hparse HD.
  destruct (CollectionOf_ok m md mediatype params st reg Hm Hparse HD)
    as (st' & a & e & Hcall & Hmt & Ha & He & _ & _ & _ & _ & Herr & Hctx & _).
  eexists st', _, _, e. split; [exact Hcall|].
  unfold mediaType, design.mediaTypeType, design.userType, design.attrType.
  rewrite Hmt, lookup_insert_eq. simpl. rewrite Ha, He. simpl.
  split; [apply not_elem_of_dom, is_fresh|].
  repeat (split; [done|]). split; [|done].
  intros other Hne. by rewrite lookup_insert_ne.
Qed.

(** X9. [CollectionOf] does not check for duplicates. Two calls on the
    same media type return two different handles of media types with the
    same identifier; the registry leads from that identifier to the
    second one, the first one stays in the store, and neither call
    records a diagnostic. *)
Theorem CollectionOf_twice_overwrites (m : loc) (md : design.MediaTypeDefinition)
    (mediatype : string) (params : gmap string string) (st : State)
    (reg : gmap string loc) :
  mediaType st m = Some md →
  ParseMediaType (design.Identifier md) = (mediatype, params, None) →
  Design st = Some {| design.MediaTypes := Some reg |} →
  ∃ st1 c1 st2 c2 d1 d2,
    CollectionOf (Some m) [] st = Ok (st1, Some c1)
    ∧ CollectionOf (Some m) [] st1 = Ok (st2, Some c2)
    ∧ c1 ≠ c2
    ∧ registry st1 !! design.Identifier d1 = Some c1
    ∧ mediaType st2 c1 = Some d1
    ∧ mediaType st2 c2 = Some d2
    ∧ design.Identifier d2 = design.Identifier d1
    ∧ registry st2 !! design.Identifier d1 = Some c2
    ∧ Errors st2 = Errors st.
Proof.
  intros Hm Hparse HD.
  destruct (CollectionOf_ok m md mediatype params st reg Hm Hparse HD)
    as (st1 & a1 & e1 & Hcall1 & Hmt1 & _ & _ & _ & _ & _ & HD1 & Herr1 & _).
  assert (fresh (dom (design.mtypes (heap st))) ≠ m) as Hfresh.
  { intros Heq. pose proof (is_fresh (dom (design.mtypes (heap st)))) as Hf.
    rewrite Heq in Hf. apply Hf, elem_of_dom. unfold mediaType in Hm. eauto. }
  assert (mediaType st1 m = Some md) as Hm1.
  { unfold mediaType. by rewrite Hmt1, lookup_insert_ne. }
  destruct (CollectionOf_ok m md mediatype params st1 _ Hm1 Hparse HD1)
    as (st2 & a2 & e2 & Hcall2 & Hmt2 & _ & _ & _ & _ & _ & HD2 & Herr2 & _).
  assert (fresh (dom (design.mtypes (heap st))) ≠ fresh (dom (design.mtypes (heap st1))))
    as Hne.
  { intros Heq. pose proof (is_fresh (dom (design.mtypes (heap st1)))) as Hf.
    rewrite <- Heq, Hmt1 in Hf. apply Hf, elem_of_dom. rewrite lookup_insert_eq. eauto. }
  match type of Hmt1 with _ = <[_ := ?d]> _ => set (d1 := d) in * end.
  match type of Hmt2 with _ = <[_ := ?d]> _ => set (d2 := d) in * end.
  exists st1, (fresh (dom (design.mtypes (heap st)))), st2,
    (fresh (dom (design.mtypes (heap st1)))), d1, d2.
  split; [exact Hcall1|]. split; [exact Hcall2|]. split; [exact Hne|].
  unfold mediaType, registry. rewrite Hmt2, HD1, HD2. simpl.
  rewrite (lookup_insert_ne _ (fresh (dom (design.mtypes (heap st1))))
             (fresh (dom (design.mtypes (heap st))))) by congruence.
  rewrite Hmt1, !lookup_insert_eq.
  subst d1 d2. cbn [design.Identifier]. rewrite ?lookup_insert_eq.
  do 5 (split; [done|]). congruence.
Qed.

(** X10. [CollectionOf(m)], called without a block, keeps the registry
    consistent: in a run whose registry exists, the call on a media type
    of the store returns, whether the parser accepts its identifier or
    not, and if every key of the registry led to a media type with that
    identifier before the call, the same holds after it. Calls with a
    block are not covered: a block can make the call panic, for instance
    one that calls [View] with an empty block. *)
Theorem CollectionOf_keeps_registry_ok (m : loc) (md : design.MediaTypeDefinition)
    (st : State) (reg : gmap string loc) :
  mediaType st m = Some md →
  Design st = Some {| design.MediaTypes := Some reg |} →
  registry_ok st →
  ∃ st' r, CollectionOf (Some m) [] st = Ok (st', r) ∧ registry_ok st'.
Proof.
  intros Hm HD Hok.
  destruct (ParseMediaType (design.Identifier md)) as [[mediatype params] [e|]] eqn:Hparse.
  - unfold dsl.CollectionOf. simpl. rewrite Hm. simpl. rewrite Hparse.
    eexists _, _. split; [reflexivity|]. by apply (registry_ok_frame st).
  - destruct (CollectionOf_ok m md mediatype params st reg Hm Hparse HD)
      as (st' & a & e & Hcall & Hmt & _ & _ & _ & _ & _ & HD' & _).
    exists st', (Some (fresh (dom (design.mtypes (heap st))))). split; [exact Hcall|].
    intros k l. unfold registry, mediaType. rewrite HD', Hmt. simpl. rewrite Hparse.
    match goal with |- <[?id := _]> _ !! _ = _ → _ => set (cid := id) end.
    destruct (decide (k = cid)) as [->|Hne].
    + rewrite lookup_insert_eq. intros [= <-]. rewrite lookup_insert_eq. eauto.
    + rewrite lookup_insert_ne by done. intros Hl.
      assert (registry st !! k = Some l) as Hl' by (unfold registry; by rewrite HD).
      destruct (Hok k l Hl') as (d & Hd & Hid). exists d. split; [|done].
      rewrite lookup_insert_ne; [done|]. intros <-.
      pose proof (is_fresh (dom (design.mtypes (heap st)))) as Hf.
      apply Hf, elem_of_dom. unfold mediaType in Hd. eauto.
Qed.

(** ** More on views *)

(** X11. Inside a media type that is an object or an array and already
    holds a view of that name, every call of [View] with that name records
    "multiple definitions for view" with the type name of the media type
    (a [DuplicateDefinition]); the block, if any, is not run, the store
    is unchanged and the media type keeps the view it had. *)
Theorem View_duplicate_rejected (name : string) (dsl : list nat) (st : State)
    (mt : loc) (d : design.MediaTypeDefinition) (t : design.DataType)
    (v : design.ViewDefinition) :
  current st = Some (MediaTypeCtx mt) →
  mediaType st mt = Some d →
  design.mediaTypeType (heap st) mt = Ok t →
  (design.IsObject (heap st) t = Ok true
   ∨ design.IsObject (heap st) t = Ok false ∧ design.IsArray (heap st) t = Ok true) →
  view st mt name = Some v →
  ∃ st',
    View name dsl st = Ok st'
    ∧ Errors st'
      = (Errors st ++ [MultipleViewDefinitions name
                         (design.TypeName (design.UserTypeDefinition_ d))])%list
    ∧ heap st' = heap st
    ∧ ctxStack st' = ctxStack st
    ∧ view st' mt name = Some v.
Proof.
  intros Hcur Hmt Ht Hguard Hview. unfold dsl.View.
  rewrite (current_mediaType _ _ _ _ Hcur), Ht. simpl.
  pose proof Hview as Hview'. unfold view in Hview'. rewrite Hmt in Hview'.
  simpl in Hview'.
  destruct Hguard as [HO|[HO HA]]; rewrite HO; simpl; rewrite ?HA; simpl;
    rewrite Hmt; simpl;
    (destruct (design.Views d) as [vs|]; simpl in *; [|done]);
    rewrite Hview'; (eexists; split; [reflexivity|]); by repeat split.
Qed.

(** X12. When the block of a view records a diagnostic, [View] stores no
    view and adds no diagnostic of its own: the call leaves the state the
    block left. *)
Theorem View_failed_block_not_stored (name : string) (f : nat) (fs : list nat)
    (st st1 st2 : State) (mt at_ : loc) (d : design.MediaTypeDefinition)
    (t : design.DataType) :
  current st = Some (MediaTypeCtx mt) →
  mediaType st mt = Some d →
  design.mediaTypeType (heap st) mt = Ok t →
  (design.IsObject (heap st) t = Ok true
   ∨ design.IsObject (heap st) t = Ok false ∧ design.IsArray (heap st) t = Ok true) →
  view st mt name = None →
  View_prepare mt d st = (st1, at_) →
  executeDSL run (Some f) (AttributeCtx at_) st1 = Ok (st2, false) →
  View name (f :: fs) st = Ok st2.
Proof.
  intros Hcur Hmt Ht Hguard Hview Hprep Hrun.
  rewrite (View_enter name (f :: fs) st mt d t) by done.
  rewrite Hprep. cbn [fst snd]. unfold dsl.View_build. by rewrite Hrun.
Qed.

(** X13. A view needs a block that declares something. Inside a media
    type that is an object or an array and holds no view of that name,
    [View] with a block that does nothing panics: the block succeeds, and
    the attribute definition of the view still has the nil type when its
    object is asked for. *)
Theorem View_empty_block_panics (name : string) (f : nat) (fs : list nat)
    (st : State) (mt : loc) (d : design.MediaTypeDefinition) (t : design.DataType) :
  (∀ s, run f s = Ok s) →
  current st = Some (MediaTypeCtx mt) →
  mediaType st mt = Some d →
  design.mediaTypeType (heap st) mt = Ok t →
  (design.IsObject (heap st) t = Ok true
   ∨ design.IsObject (heap st) t = Ok false ∧ design.IsArray (heap st) t = Ok true) →
  view st mt name = None →
  View name (f :: fs) st = Panic.
Proof.
  intros Hrun Hcur Hmt Ht Hguard Hview.
  rewrite (View_enter name (f :: fs) st mt d t) by done.
  destruct (View_prepare mt d st) as [st1 at_] eqn:Hprep. cbn [fst snd].
  destruct (View_prepare_spec _ _ _ _ _ Hmt Hprep) as (_ & _ & Hattrs & _).
  unfold dsl.View_build, executeDSL, executeBlock. rewrite Hrun. simpl.
  destruct (ctxStack st1 ++ [AttributeCtx at_])%list as [|c cs] eqn:Hstack;
    [by destruct (ctxStack st1)|].
  rewrite bool_decide_eq_true_2 by done. simpl.
  unfold dsl.View_store, design.attrType. simpl_state. simpl.
  by rewrite Hattrs, lookup_insert_eq.
Qed.

(** X14. Inside a media type that is an array and holds no view of that
    name, [View] without a block does nothing when the array has no
    element attribute or when the type of its element is not a media
    type: no diagnostic is recorded and the media type holds the views it
    held. *)
Theorem View_no_block_on_plain_array (name : string) (st : State) (mt : loc)
    (d : design.MediaTypeDefinition) (t : design.DataType) (elem : option loc) :
  current st = Some (MediaTypeCtx mt) →
  mediaType st mt = Some d →
  design.mediaTypeType (heap st) mt = Ok t →
  design.ToArray (heap st) t = Ok (Some elem) →
  view st mt name = None →
  (elem = None
   ∨ ∃ e ed, elem = Some e ∧ design.attrs (heap st) !! e = Some ed
             ∧ ∀ pa, design.Type_ ed ≠ Some (design.MediaTypeRef pa)) →
  ∃ st',
    View name [] st = Ok st'
    ∧ Errors st' = Errors st
    ∧ (∀ n, view st' mt n = view st mt n).
Proof.
  intros Hcur Hmt Ht Harr Hview Helem.
  destruct (ToArray_IsArray _ _ _ Harr) as (HA & HO & _).
  rewrite (View_enter name [] st mt d t) by eauto.
  destruct (View_prepare mt d st) as [st1 at_] eqn:Hprep. cbn [fst snd].
  destruct (View_prepare_spec _ _ _ _ _ Hmt Hprep)
    as (Hext & Hfresh & Hattrs & _ & _ & _ & Herr & _).
  pose proof (λ n, View_prepare_view mt d st st1 at_ mt n Hmt Hprep) as Hv1.
  unfold dsl.View_build.
  rewrite (mediaTypeType_extends _ _ _ _ Hext Ht). simpl.
  rewrite (IsArray_extends _ _ _ _ Hext HA). simpl.
  rewrite (ToArray_extends _ _ _ _ Hext Harr). simpl.
  destruct Helem as [->|(e & ed & -> & He & Hty)].
  - by exists st1.
  - assert (design.attrs (heap st1) !! e = Some ed) as He1.
    { rewrite Hattrs, lookup_insert_ne; [done|]. intros ->. congruence. }
    rewrite He1. simpl.
    destruct (design.Type_ ed) as [[| | | |pa]|] eqn:Hted;
      try (by exists st1). by destruct (Hty pa).
Qed.

Lemma not_mediaType st fail caller :
  (∀ m, current st ≠ Some (MediaTypeCtx m)) →
  mediaTypeDefinition fail caller st
  = (if fail then ReportError (IncompatibleDSL caller) st else st, None).
Proof.
  intros Hm. unfold mediaTypeDefinition.
  destruct (current st) as [[m| | | |]|]; try done. by destruct (Hm m).
Qed.

Lemma not_attribute st fail caller :
  (∀ a, current st ≠ Some (AttributeCtx a)) →
  attributeDefinition fail caller st
  = (if fail then ReportError (IncompatibleDSL caller) st else st, None).
Proof.
  intros Ha. unfold attributeDefinition.
  destruct (current st) as [[| |a| |]|]; try done. by destruct (Ha a).
Qed.

Lemma not_type st fail caller :
  (∀ u, current st ≠ Some (UserTypeCtx u)) →
  typeDefinition fail caller st
  = (if fail then ReportError (IncompatibleDSL caller) st else st, None).
Proof.
  intros Hu. unfold typeDefinition.
  destruct (current st) as [[|u| | |]|]; try done. by destruct (Hu u).
Qed.

Lemma not_response st fail caller :
  (∀ r, current st ≠ Some (ResponseCtx r)) →
  responseDefinition fail caller st
  = (if fail then ReportError (IncompatibleDSL caller) st else st, None).
Proof.
  intros Hr. unfold responseDefinition.
  destruct (current st) as [[| | |r|]|]; try done. by destruct (Hr r).
Qed.

(** X15. Outside a media type, [View] names the view used to render an
    attribute: inside an attribute it sets the [View] field of that
    attribute and nothing else, without a diagnostic, whatever the block;
    inside any other definition, or at top level, it records "invalid
    use of View" and leaves the store unchanged. *)
Theorem View_outside_media_type (name : string) (dsl : list nat) (st : State) :
  (∀ a ad, current st = Some (AttributeCtx a) →
     design.attrs (heap st) !! a = Some ad →
     ∃ st',
       View name dsl st = Ok st'
       ∧ design.attrs (heap st') = <[a := design.with_View name ad]> (design.attrs (heap st))
       ∧ design.View (design.with_View name ad) = name
       ∧ design.Type_ (design.with_View name ad) = design.Type_ ad
       ∧ design.mtypes (heap st') = design.mtypes (heap st)
       ∧ Errors st' = Errors st)
  ∧ ((∀ m, current st ≠ Some (MediaTypeCtx m)) →
     (∀ a, current st ≠ Some (AttributeCtx a)) →
     ∃ st',
       View name dsl st = Ok st'
       ∧ Errors st' = (Errors st ++ [IncompatibleDSL "View"])%list
       ∧ heap st' = heap st).
Proof.
  split.
  - intros a ad Hcur Ha. unfold dsl.View, mediaTypeDefinition, attributeDefinition.
    rewrite Hcur. simpl. rewrite ?Hcur. simpl. rewrite Ha. simpl.
    eexists; split; [reflexivity|]. done.
  - intros Hm Ha. unfold dsl.View.
    rewrite (not_mediaType _ _ _ Hm), (not_attribute _ _ _ Ha).
    eexists; split; [reflexivity|]. done.
Qed.

(** ** References and type names *)

(** X16. [Reference] records the reference type on the attribute
    definition of the current media type, or else of the current user
    type, keeping the type of that attribute definition and touching no
    media type, without a diagnostic; in any other context it records
    "invalid use of Reference" and leaves the store unchanged. *)
Theorem Reference_sets_reference (t : option design.DataType) (st : State) :
  (∀ mt d a ad,
     current st = Some (MediaTypeCtx mt) →
     mediaType st mt = Some d →
     design.AttributeDefinition_ (design.UserTypeDefinition_ d) = Some a →
     design.attrs (heap st) !! a = Some ad →
     ∃ st',
       Reference t st = Ok st'
       ∧ design.attrs (heap st')
         = <[a := design.with_Reference t ad]> (design.attrs (heap st))
       ∧ design.Reference (design.with_Reference t ad) = t
       ∧ design.Type_ (design.with_Reference t ad) = design.Type_ ad
       ∧ design.mtypes (heap st') = design.mtypes (heap st)
       ∧ Errors st' = Errors st)
  ∧ (∀ ut d a ad,
     current st = Some (UserTypeCtx ut) →
     design.utypes (heap st) !! ut = Some d →
     design.AttributeDefinition_ d = Some a →
     design.attrs (heap st) !! a = Some ad →
     ∃ st',
       Reference t st = Ok st'
       ∧ design.attrs (heap st')
         = <[a := design.with_Reference t ad]> (design.attrs (heap st))
       ∧ design.utypes (heap st') = design.utypes (heap st)
       ∧ Errors st' = Errors st)
  ∧ ((∀ m, current st ≠ Some (MediaTypeCtx m)) →
     (∀ u, current st ≠ Some (UserTypeCtx u)) →
     ∃ st',
       Reference t st = Ok st'
       ∧ Errors st' = (Errors st ++ [IncompatibleDSL "Reference"])%list
       ∧ heap st' = heap st).
Proof.
  split; [|split].
  - intros mt d a ad Hcur Hmt Ha Had. unfold dsl.Reference, setReference.
    rewrite (current_mediaType _ _ _ _ Hcur), Hmt. simpl. rewrite Ha. simpl.
    rewrite Had. simpl. eexists; split; [reflexivity|]. done.
  - intros ut d a ad Hcur Hut Ha Had. unfold dsl.Reference, setReference.
    rewrite not_mediaType by (intros m; rewrite Hcur; congruence).
    unfold typeDefinition. rewrite Hcur, Hut. simpl. rewrite Ha. simpl.
    rewrite Had. simpl. eexists; split; [reflexivity|]. done.
  - intros Hm Hu. unfold dsl.Reference.
    rewrite (not_mediaType _ _ _ Hm), (not_type _ _ _ Hu).
    eexists; split; [reflexivity|]. done.
Qed.

(** X17. Inside a media type, [TypeName] replaces the type name and
    nothing else: the identifier, the attribute definition, the links and
    the views of the media type, the other media types, the registry and
    its consistency are as before, and no diagnostic is recorded. A second
    call overrides the first: calling [TypeName] twice leaves the state
    the second call alone would leave. *)
Theorem TypeName_overrides_name_only (n1 n2 : string) (st : State) (mt : loc)
    (d : design.MediaTypeDefinition) :
  current st = Some (MediaTypeCtx mt) →
  mediaType st mt = Some d →
  (∃ st' d',
     TypeName n1 st = Ok st'
     ∧ mediaType st' mt = Some d'
     ∧ design.TypeName (design.UserTypeDefinition_ d') = n1
     ∧ design.Identifier d' = design.Identifier d
     ∧ design.AttributeDefinition_ (design.UserTypeDefinition_ d')
       = design.AttributeDefinition_ (design.UserTypeDefinition_ d)
     ∧ design.Links d' = design.Links d
     ∧ design.Views d' = design.Views d
     ∧ (∀ m, m ≠ mt → mediaType st' m = mediaType st m)
     ∧ registry st' = registry st
     ∧ (registry_ok st → registry_ok st')
     ∧ Errors st' = Errors st)
  ∧ (TypeName n1 st ≫= TypeName n2) = TypeName n2 st.
Proof.
  intros Hcur Hmt. split.
  - unfold dsl.TypeName. rewrite (current_mediaType _ _ _ _ Hcur), Hmt. simpl.
    eexists _, _. split; [reflexivity|]. unfold mediaType. simpl_state.
    rewrite lookup_insert_eq. do 6 (split; [done|]).
    split; [intros m Hne; by rewrite lookup_insert_ne|]. split; [done|].
    split; [|done].
    intros Hok k l Hl. destruct (Hok k l Hl) as (d0 & Hd0 & Hid).
    unfold mediaType in *. simpl_state.
    destruct (decide (l = mt)) as [->|Hne].
    + rewrite lookup_insert_eq. eexists; split; [done|]. simpl. congruence.
    + rewrite lookup_insert_ne by done. eauto.
  - unfold dsl.TypeName. rewrite (current_mediaType _ _ _ _ Hcur), Hmt. simpl.
    unfold mediaTypeDefinition, current in *. simpl_state. rewrite Hcur.
    unfold mediaType in *. simpl_state. rewrite lookup_insert_eq. simpl.
    unfold set_heap, design.set_mtypes. simpl. by rewrite insert_insert_eq.
Qed.

(** X18. Outside a media type, inside a user type, [TypeName] replaces
    the type name of that user type and keeps its attribute definition;
    in a context that is neither a media type nor a user type it records
    "invalid use of TypeName" and leaves the store unchanged. *)
Theorem TypeName_outside_media_type (name : string) (st : State) :
  (∀ ut d,
     current st = Some (UserTypeCtx ut) →
     design.utypes (heap st) !! ut = Some d →
     ∃ st',
       TypeName name st = Ok st'
       ∧ design.utypes (heap st')
         = <[ut := design.with_TypeName name d]> (design.utypes (heap st))
       ∧ design.AttributeDefinition_ (design.with_TypeName name d)
         = design.AttributeDefinition_ d
       ∧ design.mtypes (heap st') = design.mtypes (heap st)
       ∧ Errors st' = Errors st)
  ∧ ((∀ m, current st ≠ Some (MediaTypeCtx m)) →
     (∀ u, current st ≠ Some (UserTypeCtx u)) →
     ∃ st',
       TypeName name st = Ok st'
       ∧ Errors st' = (Errors st ++ [IncompatibleDSL "TypeName"])%list
       ∧ heap st' = heap st).
Proof.
  split.
  - intros ut d Hcur Hut. unfold dsl.TypeName.
    rewrite not_mediaType by (intros m; rewrite Hcur; congruence).
    unfold typeDefinition. rewrite Hcur, Hut. simpl.
    eexists; split; [reflexivity|]. done.
  - intros Hm Hu. unfold dsl.TypeName.
    rewrite (not_mediaType _ _ _ Hm), (not_type _ _ _ Hu).
    eexists; split; [reflexivity|]. done.
Qed.

(** ** More on links *)

Lemma Link_fresh_state name views st mt d :
  current st = Some (MediaTypeCtx mt) →
  mediaType st mt = Some d →
  link st mt name = None →
  Link name views st =
    Ok (set_heap (design.set_mtypes
          (insert mt (design.with_Links
             (Some (<[name := {| design.Link_Name := name;
                                 design.Link_View := default "link" (head views);
                                 design.Link_Parent := mt |}]>
                      (default ∅ (design.Links d)))) d)))
        (if bool_decide (1 < length views)%nat
         then ReportError (InvalidLinkSyntaxError name) st else st)).
Proof.
  intros Hcur Hmt Hl. unfold Link. rewrite (current_mediaType _ _ _ _ Hcur), Hmt. simpl.
  unfold link in Hl. rewrite Hmt in Hl. simpl in Hl.
  replace (design.Links d ≫= λ ls, ls !! name) with (@None design.LinkDefinition)
    by (symmetry; destruct (design.Links d); done).
  done.
Qed.

(** X19. Inside a media type, two calls of [Link] with different names
    that the media type does not hold register both links, each with its
    own view, in either order: the two orders leave the same state when
    no call has more than one view. The views, the identifier and the
    type of the media type, the other media types and the registry are
    untouched. *)
Theorem Link_two_names (n1 n2 : string) (v1 v2 : list string) (st : State) (mt : loc)
    (d : design.MediaTypeDefinition) :
  current st = Some (MediaTypeCtx mt) →
  mediaType st mt = Some d →
  link st mt n1 = None →
  link st mt n2 = None →
  n1 ≠ n2 →
  ∃ st2 d2,
    (Link n1 v1 st ≫= Link n2 v2) = Ok st2
    ∧ link st2 mt n1
      = Some {| design.Link_Name := n1; design.Link_View := default "link" (head v1);
                design.Link_Parent := mt |}
    ∧ link st2 mt n2
      = Some {| design.Link_Name := n2; design.Link_View := default "link" (head v2);
                design.Link_Parent := mt |}
    ∧ (∀ n, n ≠ n1 → n ≠ n2 → link st2 mt n = link st mt n)
    ∧ mediaType st2 mt = Some d2
    ∧ design.Views d2 = design.Views d
    ∧ design.Identifier d2 = design.Identifier d
    ∧ design.UserTypeDefinition_ d2 = design.UserTypeDefinition_ d
    ∧ (∀ m, m ≠ mt → mediaType st2 m = mediaType st m)
    ∧ registry st2 = registry st
    ∧ ((length v1 ≤ 1)%nat → (length v2 ≤ 1)%nat →
       (Link n2 v2 st ≫= Link n1 v1) = Ok st2).
Proof.
  intros Hcur Hmt Hl1 Hl2 Hne.
  assert (∀ na va nb vb, na ≠ nb → link st mt na = None → link st mt nb = None →
    (Link na va st ≫= Link nb vb) =
      Ok (set_heap (design.set_mtypes
            (insert mt (design.with_Links
               (Some (<[nb := {| design.Link_Name := nb;
                                 design.Link_View := default "link" (head vb);
                                 design.Link_Parent := mt |}]>
                        (<[na := {| design.Link_Name := na;
                                    design.Link_View := default "link" (head va);
                                    design.Link_Parent := mt |}]>
                           (default ∅ (design.Links d))))) d)))
          (if bool_decide (1 < length vb)%nat
           then ReportError (InvalidLinkSyntaxError nb)
                  (if bool_decide (1 < length va)%nat
                   then ReportError (InvalidLinkSyntaxError na) st else st)
           else (if bool_decide (1 < length va)%nat
                 then ReportError (InvalidLinkSyntaxError na) st else st))))
    as Hboth.
  { intros na va nb vb Hab Ha Hb.
    rewrite (Link_fresh_state na va st mt d Hcur Hmt Ha). simpl.
    set (d1 := design.with_Links
                 (Some (<[na := {| design.Link_Name := na;
                                   design.Link_View := default "link" (head va);
                                   design.Link_Parent := mt |}]>
                          (default ∅ (design.Links d)))) d).
    destruct (bool_decide (1 < length va)%nat);
      (rewrite (Link_fresh_state nb vb _ mt d1);
       [ destruct (bool_decide (1 < length vb)%nat);
           unfold set_heap, design.set_mtypes, ReportError, set_Errors; simpl;
           by rewrite insert_insert_eq
       | done
       | unfold mediaType; simpl_state; apply lookup_insert_eq
       | unfold link, mediaType in *; simpl_state; rewrite lookup_insert_eq; simpl;
         rewrite lookup_insert_ne by done; rewrite Hmt in Hb; simpl in Hb;
         destruct (design.Links d); simpl in *; by rewrite ?lookup_empty ]). }
  pose proof (Hboth n2 v2 n1 v1 (not_eq_sym Hne) Hl2 Hl1) as Hswap.
  rewrite (Hboth n1 v1 n2 v2) by done.
  set (sx := if bool_decide (1 < length v2)%nat then _ else _).
  assert (heap sx = heap st ∧ Design sx = Design st) as [Hhx HDx]
    by (unfold sx; by repeat case_bool_decide).
  eexists _, _. split; [reflexivity|].
  unfold link, mediaType, registry in *. simpl_state. rewrite Hhx, HDx.
  rewrite Hmt in Hl1, Hl2. simpl in Hl1, Hl2.
  rewrite !lookup_insert_eq. simpl.
  split; [rewrite lookup_insert_ne by done; apply lookup_insert_eq|].
  split; [apply lookup_insert_eq|].
  split.
  { intros n H1 H2. rewrite !lookup_insert_ne by done. rewrite Hmt. simpl.
    destruct (design.Links d); simpl; by rewrite ?lookup_empty. }
  split; [reflexivity|]. do 3 (split; [done|]).
  split; [intros m Hm; by rewrite lookup_insert_ne|].
  split; [done|].
  intros Hv1 Hv2. rewrite Hswap.
  subst sx. rewrite !bool_decide_eq_false_2 by lia.
  unfold set_heap, design.set_mtypes. simpl. by rewrite insert_insert_ne.
Qed.

(** ** More on responses, attributes and links blocks *)

(** X20. Outside a response, [Media] records "invalid use of Media" and
    leaves the store unchanged, whatever the value. Inside a response, the
    nil handle (what a refused [MediaType] call returns) makes [Media]
    panic, and of two calls with strings the second one decides: the state
    is the one the second call alone would leave. *)
Theorem Media_outside_response_and_nil (st : State) :
  ((∀ r, current st ≠ Some (ResponseCtx r)) →
     ∀ val, ∃ st',
       Media val st = Ok st'
       ∧ Errors st' = (Errors st ++ [IncompatibleDSL "Media"])%list
       ∧ heap st' = heap st)
  ∧ (∀ r, current st = Some (ResponseCtx r) →
       Media (VMediaType None) st = Panic)
  ∧ (∀ r rd s1 s2,
       current st = Some (ResponseCtx r) →
       design.resps (heap st) !! r = Some rd →
       (Media (VString s1) st ≫= Media (VString s2)) = Media (VString s2) st).
Proof.
  split; [|split].
  - intros Hr val. unfold Media. rewrite (not_response _ _ _ Hr).
    eexists; split; [reflexivity|]. done.
  - intros r Hcur. unfold Media, responseDefinition. by rewrite Hcur.
  - intros r rd s1 s2 Hcur Hrd. unfold Media, responseDefinition.
    rewrite Hcur, Hrd. simpl. unfold current in *. simpl_state. rewrite Hcur.
    simpl_state. rewrite lookup_insert_eq. simpl.
    unfold set_heap, design.set_resps. simpl. by rewrite insert_insert_eq.
Qed.

(** X21. [Attributes] and [Links] run their block against the current
    media type: with the media type pushed on the context stack, which is
    popped when the block returns (a block that leaves the stack empty
    makes the pop panic). Inside a media type the two functions do the
    same, and a nil block changes nothing. Outside a media type the block
    is not run: the call records "invalid use of Attributes" (of "Links")
    and changes nothing else. *)
Theorem Attributes_Links_run_block (dsl : option nat) (st : State) :
  ((∀ m, current st ≠ Some (MediaTypeCtx m)) →
     Attributes run dsl st = Ok (ReportError (IncompatibleDSL "Attributes") st)
     ∧ Links run dsl st = Ok (ReportError (IncompatibleDSL "Links") st))
  ∧ (∀ mt, current st = Some (MediaTypeCtx mt) →
       Attributes run dsl st = Links run dsl st
       ∧ Attributes run None st = Ok st
       ∧ ∀ f st2,
           run f (set_ctxStack (ctxStack st ++ [MediaTypeCtx mt]) st) = Ok st2 →
           Attributes run (Some f) st =
             match ctxStack st2 with
             | [] => Panic
             | _ => Ok (set_ctxStack (removelast (ctxStack st2)) st2)
             end).
Proof.
  split.
  - intros Hm. unfold Attributes, Links. by rewrite !(not_mediaType _ _ _ Hm).
  - intros mt Hcur. unfold Attributes, Links.
    rewrite !(current_mediaType _ _ _ _ Hcur). split; [done|]. split; [done|].
    intros f st2 Hrun. unfold executeDSL, executeBlock. rewrite Hrun. simpl.
    by destruct (ctxStack st2).
Qed.

(** ** A collection that takes its view from its element *)

Lemma underlying_grow n : ∀ n' h h' t r,
  (n ≤ n')%nat →
  design.utypes h' = design.utypes h →
  design.mtypes h ⊆ design.mtypes h' →
  design.attrs h ⊆ design.attrs h' →
  design.underlying n h t = Ok r → design.underlying n' h' t = Ok r.
Proof.
  induction n as [|n IH]; intros n' h h' t r Hle Hu Hm Ha;
    destruct t, n' as [|n']; simpl; try done; try lia.
  - rewrite Hu. destruct (design.utypes h !! u) as [d|]; simpl; [|done].
    unfold design.userType, design.attrType.
    destruct (design.AttributeDefinition_ d) as [a|]; simpl; [|done].
    destruct (design.attrs h !! a) as [ad|] eqn:Had; simpl; [|done].
    rewrite (lookup_weaken _ _ _ _ Had Ha). simpl.
    destruct (design.Type_ ad) as [t'|]; simpl; [|done].
    apply IH; [lia|done..].
  - destruct (design.mtypes h !! m) as [d|] eqn:Hd; simpl; [|done].
    rewrite (lookup_weaken _ _ _ _ Hd Hm). simpl.
    unfold design.userType, design.attrType.
    destruct (design.AttributeDefinition_ (design.UserTypeDefinition_ d)) as [a|];
      simpl; [|done].
    destruct (design.attrs h !! a) as [ad|] eqn:Had; simpl; [|done].
    rewrite (lookup_weaken _ _ _ _ Had Ha). simpl.
    destruct (design.Type_ ad) as [t'|]; simpl; [|done].
    apply IH; [lia|done..].
Qed.

Lemma ToObject_grow h h' t r :
  design.utypes h' = design.utypes h →
  design.mtypes h ⊆ design.mtypes h' →
  design.attrs h ⊆ design.attrs h' →
  design.ToObject h t = Ok r → design.ToObject h' t = Ok r.
Proof.
  intros Hu Hm Ha. unfold design.ToObject.
  destruct (design.underlying (design.depth h) h t) as [t'|] eqn:Ht; [|done].
  rewrite (underlying_grow (design.depth h) (design.depth h') h h' t t'); [done| |done..].
  unfold design.depth. rewrite Hu. pose proof (map_subseteq_size _ _ Hm). lia.
Qed.

Lemma unknown_nil parent ks :
  (∀ n, n ∈ ks → n = "links" ∨ is_Some (parent !! n)) → unknown parent ks = [].
Proof.
  intros Hks. unfold unknown.
  induction ks as [|k ks IH]; [done|].
  rewrite filter_cons. rewrite decide_False.
  - apply IH. intros n Hn. apply Hks. by right.
  - intros [Hnone Hl]. destruct (Hks k) as [?|[x Hx]]; [by left|done|congruence].
Qed.

(** The view a collection takes from its element, when the names of that
    view are attributes of the element (or "links"). *)
Lemma View_inherit_resolved name s c e m dc t ed pd v at_ ty o names p parent :
  (∀ k, range_keys k ≡ₚ (map_to_list k).*1) →
  current s = Some (MediaTypeCtx c) →
  mediaType s c = Some dc →
  design.mediaTypeType (heap s) c = Ok t →
  design.ToArray (heap s) t = Ok (Some (Some e)) →
  design.attrs (heap s) !! e = Some ed →
  design.Type_ ed = Some (design.MediaTypeRef m) →
  mediaType s m = Some pd →
  view s c name = None →
  view s m name = Some v →
  design.View_AttributeDefinition v = Some at_ →
  design.attrType (heap s) (Some at_) = Ok (Some ty) →
  design.ToObject (heap s) ty = Ok (Some o) →
  design.objs (heap s) !! o = Some names →
  design.ToObject (heap s) (design.MediaTypeRef m) = Ok (Some p) →
  design.objs (heap s) !! p = Some parent →
  (∀ n, n ∈ dom names → n = "links" ∨ is_Some (parent !! n)) →
  ∃ s',
    View name [] s = Ok s'
    ∧ Errors s' = Errors s
    ∧ ctxStack s' = ctxStack s
    ∧ Design s' = Design s
    ∧ view s' c name = Some (the_view c name (Some at_))
    ∧ (∀ k, k ≠ c → mediaType s' k = mediaType s k)
    ∧ is_Some (mediaType s' c)
    ∧ (∀ d', mediaType s' c = Some d' → design.Identifier d' = design.Identifier dc).
Proof.
  intros Hperm Hcur Hmt Ht Harr He Hed Hpa Hview Hv Hat Hty Hoo Hnames Hmto Hparent Hall.
  destruct (ToArray_IsArray _ _ _ Harr) as (HA & HO & HTO).
  destruct (View_prepare c dc s) as [s1 at0] eqn:Hprep.
  destruct (View_prepare_spec _ _ _ _ _ Hmt Hprep)
    as (Hext & Hfresh & Hattrs & Hobjs & Hmt1 & Hother & Herr & Hctx & HD).
  pose proof (λ k n, View_prepare_view c dc s s1 at0 k n Hmt Hprep) as Hv1.
  assert (design.attrs (heap s1) !! e = Some ed) as He1.
  { rewrite Hattrs, lookup_insert_ne; [done|]. intros ->. congruence. }
  assert (∃ pd1, mediaType s1 m = Some pd1) as [pd1 Hpa1].
  { destruct (decide (m = c)) as [->|Hne]; [eauto|]. rewrite Hother by done. eauto. }
  assert (View_parentObject c s1 = Ok (Some p)) as Hp.
  { eapply View_parentObject_array.
    - by apply (mediaTypeType_extends _ _ _ _ Hext Ht).
    - by apply (ToArray_extends _ _ _ _ Hext Harr).
    - unfold design.attrType. simpl. rewrite He1. simpl. by rewrite Hed.
    - by apply (ToObject_extends _ _ _ _ Hext Hmto). }
  pose proof (attrType_extends _ _ _ _ Hext Hty) as Hty1.
  pose proof (ToObject_extends _ _ _ _ Hext Hoo) as Hoo1.
  rewrite <- Hobjs in Hnames, Hparent.
  rewrite (View_enter name [] s c dc t) by eauto.
  rewrite Hprep. cbn [fst snd]. unfold dsl.View_build.
  rewrite (mediaTypeType_extends _ _ _ _ Hext Ht). simpl.
  rewrite (IsArray_extends _ _ _ _ Hext HA). simpl.
  rewrite (ToArray_extends _ _ _ _ Hext Harr). simpl.
  rewrite He1. simpl. rewrite Hed, Hpa1. simpl.
  pose proof (Hv1 m name) as Hvm. rewrite Hv in Hvm. unfold view in Hvm.
  rewrite Hpa1 in Hvm. simpl in Hvm. rewrite Hvm, Hat.
  rewrite (View_store_object _ _ _ _ _ _ _ _ _ _ Hty1 Hoo1 Hnames Hp Hmt1 eq_refl).
  assert (contents s1 (Some p) = parent) as ->
    by (unfold contents; simpl; by rewrite Hparent).
  rewrite unknown_nil, app_nil_r
    by (intros n Hn; apply Hall; by apply (range_keys_dom names (Hperm names))).
  eexists; split; [reflexivity|]. simpl_state.
  do 3 (split; [done|]). split; [apply view_stored|].
  unfold mediaType. simpl_state.
  split; [intros k Hk; rewrite lookup_insert_ne by done; by apply Hother|].
  rewrite lookup_insert_eq. split; [eauto|]. by intros d' [= <-].
Qed.

(** X22. [CollectionOf(m, func() { View(name) })]: when the block given to
    [CollectionOf] declares a view without a block of its own, and [m],
    whose identifier the parser accepts, has a view of that name built on
    an object whose names are attributes of [m] (or "links"), the call
    returns a new handle of a registered media type that holds, under
    that name, a view on the attribute definition of the view of [m],
    with the collection as parent. The view of [m] stays, no diagnostic
    is recorded and the context stack is as before. *)
Theorem CollectionOf_with_view_block (name : string) (f : nat) (fs : list nat)
    (m at_ o p : loc) (md : design.MediaTypeDefinition) (mediatype : string)
    (params : gmap string string) (st : State) (reg : gmap string loc)
    (v : design.ViewDefinition) (ty : design.DataType)
    (names parent : gmap string loc) :
  (∀ k, range_keys k ≡ₚ (map_to_list k).*1) →
  (∀ s, run f s = View name [] s) →
  mediaType st m = Some md →
  ParseMediaType (design.Identifier md) = (mediatype, params, None) →
  Design st = Some {| design.MediaTypes := Some reg |} →
  view st m name = Some v →
  design.View_AttributeDefinition v = Some at_ →
  design.attrType (heap st) (Some at_) = Ok (Some ty) →
  design.ToObject (heap st) ty = Ok (Some o) →
  design.objs (heap st) !! o = Some names →
  design.ToObject (heap st) (design.MediaTypeRef m) = Ok (Some p) →
  design.objs (heap st) !! p = Some parent →
  (∀ n, n ∈ dom names → n = "links" ∨ is_Some (parent !! n)) →
  ∃ st' c cd,
    CollectionOf (Some m) (f :: fs) st = Ok (st', Some c)
    ∧ mediaType st c = None
    ∧ mediaType st' c = Some cd
    ∧ registry st' !! design.Identifier cd = Some c
    ∧ view st' c name = Some (the_view c name (Some at_))
    ∧ view st' m name = Some v
    ∧ Errors st' = Errors st
    ∧ ctxStack st' = ctxStack st.
Proof.
  intros Hperm Hf Hm Hparse HD Hv Hat Hty Hoo Hnames Hmto Hparent Hall.
  assert (fresh (dom (design.mtypes (heap st))) ≠ m) as Hfresh.
  { intros Heq. pose proof (is_fresh (dom (design.mtypes (heap st)))) as Hfr.
    rewrite Heq in Hfr. apply Hfr, elem_of_dom. unfold mediaType in Hm. eauto. }
  unfold dsl.CollectionOf. simpl. rewrite Hm. simpl. rewrite Hparse.
  unfold design.NewMediaTypeDefinition, design.new_obj, design.new_attr, design.new_mtype.
  simpl_state. cbv zeta.
  unfold executeBlock at 1. unfold run_func, dsl.CollectionOf_dsl, mediaTypeDefinition, current.
  simpl_state. rewrite last_snoc. unfold mediaType at 1. simpl_state.
  rewrite lookup_insert_eq. simpl.
  unfold executeDSL, executeBlock. rewrite Hf.
  match goal with |- context [dsl.View run range_keys name [] ?x] => set (s := x) end.
  set (c := fresh (dom (design.mtypes (heap st)))) in *.
  set (o0 := fresh (dom (design.objs (heap st)))) in *.
  set (a0 := fresh (dom (design.attrs (heap st)))) in *.
  set (A1 := <[a0 := _]> (design.attrs (heap st))) in *.
  set (e := fresh (dom A1)) in *. set (A2 := <[e := _]> A1) in *.
  set (a := fresh (dom A2)) in *.
  assert (design.attrs (heap st) !! a0 = None) as Ha0 by apply not_elem_of_dom, is_fresh.
  assert (A1 !! e = None) as He by apply not_elem_of_dom, is_fresh.
  assert (A2 !! a = None) as Ha by apply not_elem_of_dom, is_fresh.
  assert (design.objs (heap st) !! o0 = None) as Ho0 by apply not_elem_of_dom, is_fresh.
  assert (mediaType st c = None) as Hc by apply not_elem_of_dom, is_fresh.
  assert (a ≠ e) as Hae.
  { intros Heq. rewrite Heq in Ha. unfold A2 in Ha. by rewrite lookup_insert_eq in Ha. }
  assert (design.attrs (heap st) ⊆ design.attrs (heap s)) as Hsub.
  { unfold s. simpl_state. etrans; [|by apply insert_subseteq].
    etrans; [|by apply insert_subseteq]. by apply insert_subseteq. }
  assert (design.mtypes (heap st) ⊆ design.mtypes (heap s)) as Hmsub.
  { unfold s. simpl_state. rewrite insert_insert_eq. by apply insert_subseteq. }
  assert (design.utypes (heap s) = design.utypes (heap st)) as Hus by done.
  assert (design.objs (heap s) = <[o0 := ∅]> (design.objs (heap st))) as Hos by done.
  assert (ctxStack s = ((ctxStack st ++ [MediaTypeCtx c]) ++ [MediaTypeCtx c])%list)
    as Hcs by done.
  assert (Errors s = Errors st) as Hes by done.
  assert (Design s = Design st) as HDs by done.
  assert (∃ dc, mediaType s c = Some dc
                ∧ design.AttributeDefinition_ (design.UserTypeDefinition_ dc) = Some a
                ∧ design.Views dc = None
                ∧ design.Identifier dc = collection_id md) as (dc & Hdc & Hdca & Hdcv & Hdci).
  { unfold s, mediaType. simpl_state. rewrite lookup_insert_eq.
    eexists. split; [reflexivity|]. simpl. by rewrite Hparse. }
  assert (design.attrs (heap s) !! a
          = Some {| design.Type_ := Some (design.Array (Some e));
                    design.Reference := None; design.View := "" |}) as Hsa
    by (unfold s; simpl_state; apply lookup_insert_eq).
  assert (design.attrs (heap s) !! e
          = Some {| design.Type_ := Some (design.MediaTypeRef m);
                    design.Reference := None; design.View := "" |}) as Hse.
  { unfold s. simpl_state. rewrite lookup_insert_ne by done. apply lookup_insert_eq. }
  assert (∀ k, k ≠ c → mediaType s k = mediaType st k) as Hsother.
  { intros k Hk. unfold s, mediaType. simpl_state. by rewrite !lookup_insert_ne. }
  clearbody s.
  assert (current s = Some (MediaTypeCtx c)) as H1
    by (unfold current; rewrite Hcs; apply last_snoc).
  assert (design.mediaTypeType (heap s) c = Ok (design.Array (Some e))) as H2.
  { unfold design.mediaTypeType, design.userType, design.attrType.
    unfold mediaType in Hdc. rewrite Hdc. simpl. rewrite Hdca. simpl. by rewrite Hsa. }
  assert (design.ToArray (heap s) (design.Array (Some e)) = Ok (Some (Some e))) as H3
    by done.
  assert (mediaType s m = Some md) as H4 by (by rewrite Hsother by congruence).
  assert (view s c name = None) as H5
    by (unfold view; rewrite Hdc; simpl; by rewrite Hdcv).
  assert (view s m name = Some v) as H6
    by (unfold view in *; by rewrite Hsother by congruence).
  assert (design.attrType (heap s) (Some at_) = Ok (Some ty)) as H7.
  { unfold design.attrType in *. simpl in *.
    destruct (design.attrs (heap st) !! at_) as [ad|] eqn:Had; [|done].
    by rewrite (lookup_weaken _ _ _ _ Had Hsub). }
  assert (design.ToObject (heap s) ty = Ok (Some o)) as H8
    by (by apply (ToObject_grow (heap st))).
  assert (design.objs (heap s) !! o = Some names) as H9.
  { rewrite Hos, lookup_insert_ne; [done|]. intros ->. congruence. }
  assert (design.ToObject (heap s) (design.MediaTypeRef m) = Ok (Some p)) as H10
    by (by apply (ToObject_grow (heap st))).
  assert (design.objs (heap s) !! p = Some parent) as H11.
  { rewrite Hos, lookup_insert_ne; [done|]. intros ->. congruence. }
  destruct (View_inherit_resolved name s c e m dc _ _ md v at_ ty o names p parent
              Hperm H1 Hdc H2 H3 Hse eq_refl H4 H5 H6 Hat H7 H8 H9 H10 H11 Hall)
    as (s' & HView & Hes' & Hcs' & HDs' & Hvc & Hother' & [cd Hcd] & Hid').
  rewrite HView. simpl. rewrite Hcs', Hcs.
  destruct ((ctxStack st ++ [MediaTypeCtx c]) ++ [MediaTypeCtx c])%list
    as [|x xs] eqn:Hst2; [by destruct (ctxStack st ++ [MediaTypeCtx c])%list|].
  rewrite <- Hst2, removelast_last, Hes', Hes.
  rewrite (bool_decide_eq_true_2 (_ ≤ _)%nat) by done. simpl.
  destruct (ctxStack st ++ [MediaTypeCtx c])%list as [|y ys] eqn:Hst1;
    [by destruct (ctxStack st)|].
  rewrite <- Hst1, removelast_last, Hes', Hes.
  rewrite (bool_decide_eq_true_2 (_ ≤ _)%nat) by done. simpl.
  rewrite HDs', HDs, HD. simpl.
  exists (set_Design
            (Some {| design.MediaTypes := Some (<[collection_id md := c]> reg) |})
            (set_ctxStack (ctxStack st) (set_ctxStack (ctxStack st ++ [MediaTypeCtx c]) s'))),
    c, cd.
  split; [by rewrite Hparse|]. split; [exact Hc|]. split; [exact Hcd|].
  split; [unfold registry; simpl; rewrite (Hid' cd Hcd), Hdci; apply lookup_insert_eq|].
  split; [exact Hvc|].
  split; [|by rewrite <- Hes].
  change (view s' m name = Some v). unfold view in *.
  rewrite Hother' by congruence. exact H6.
Qed.

End Properties.

(** * The properties on the design of a bottle *)

(** C1 on the bottle: the identifier of the bottle written in upper case has
    the canonical form of the registered identifier, and declaring it is
    refused. *)
Lemma MediaType_duplicate_rejected_witness :
  ∃ st',
    example.MediaType "Application/VND.GOA.example.bottle" None example.bottle_declared
      = (st', None)
    ∧ last (dsl.Errors st') = Some (dsl.MediaTypeDefinedTwice example.bottle_id)
    ∧ dsl.registry st' = dsl.registry example.bottle_declared
    ∧ dsl.heap st' = dsl.heap example.bottle_declared.
Proof.
  destruct (MediaType_duplicate_rejected mime.ParseMediaType mime.FormatMediaType
              example.Camelize example.bottle_id "Application/VND.GOA.example.bottle"
              None example.bottle_declared 0)
    as (st' & Hcall & Hlast & _ & _ & Hreg & _ & Hheap);
    [reflexivity | vm_compute; reflexivity | vm_compute; reflexivity |].
  exists st'. split; [exact Hcall|]. split; [exact Hlast|]. split; [exact Hreg|exact Hheap].
Defined.

(** C2 on a new process: the identifier "bottle media type" is rejected by
    the parser, the error is recorded, and the call still creates a media
    type named "MediaType1", registers it under the empty identifier and
    returns it. *)
Lemma MediaType_malformed_identifier_registered :
  ∃ st' mt d,
    mime.ParseMediaType "bottle media type"
      = ("", ∅, Some "mime: expected slash after first token")
    ∧ example.MediaType "bottle media type" None dsl.initial = (st', Some mt)
    ∧ dsl.Errors st'
      = [dsl.InvalidIdentifierError "" "mime: expected slash after first token"]
    ∧ dsl.registry st' !! "" = Some mt
    ∧ dsl.mediaType st' mt = Some d
    ∧ design.Identifier d = ""
    ∧ design.TypeName (design.UserTypeDefinition_ d) = "MediaType1".
Proof.
  eexists _, _, _. split; [vm_compute; reflexivity|].
  split; [vm_compute; reflexivity|].
  split; [vm_compute; reflexivity|].
  split; [vm_compute; reflexivity|].
  split; [vm_compute; reflexivity|].
  split; reflexivity.
Qed.

(** C3 on the bottle: its collection is "BottleCollection", with the
    parameter [type=collection] appended to the identifier. *)
Lemma CollectionOf_type_parameter_and_name_witness :
  ∃ st' mt cd,
    example.CollectionOf (Some 0) [] example.bottle_declared = Ok (st', Some mt)
    ∧ dsl.mediaType st' mt = Some cd
    ∧ design.Identifier cd = "application/vnd.goa.example.bottle; type=collection"
    ∧ design.TypeName (design.UserTypeDefinition_ cd) = "BottleCollection"
    ∧ dsl.registry st' !! design.Identifier cd = Some mt.
Proof.
  edestruct (CollectionOf_type_parameter_and_name mime.ParseMediaType
               mime.FormatMediaType example.run 0)
    with (st := example.bottle_declared)
    as (st' & mt & cd & params' & Hcall & Hcd & Hid & _ & Hnone & _ & Hname & Hreg & _);
    [reflexivity | vm_compute; reflexivity | reflexivity |].
  exists st', mt, cd. split; [exact Hcall|]. split; [exact Hcd|].
  split; [|split; [exact Hname|exact Hreg]].
  rewrite Hid, Hnone by reflexivity. vm_compute. reflexivity.
Defined.

(** C4 on the bottle: the view "default" built from a block that names [id]
    and [vintage]. [id] now refers to the attribute definition of the
    bottle, at 1; [vintage], which the bottle does not have, is reported and
    keeps its placeholder; the view is stored. And on the collection of
    bottles whose view "short" names [id] and [vintage]: [View("short")]
    without a block resolves the names of that view again, reports
    [vintage] again, and stores the view for the collection. *)
Lemma View_resolves_attributes_witness :
  (∃ st' names',
     example.View "default" [2] example.in_bottle = Ok st'
     ∧ design.objs (dsl.heap st') !! 1 = Some names'
     ∧ names' !! "id" = Some 1
     ∧ design.objs (dsl.heap example.in_bottle) !! 0 = Some {[ "id" := 1; "href" := 2 ]}
     ∧ dsl.UnknownAttributeError "vintage" ∈ dsl.Errors st'
     ∧ dsl.view st' 0 "default"
       = Some {| design.View_AttributeDefinition := Some 3; design.View_Name := "default";
                 design.View_Parent := 0 |})
  ∧ (∃ st' names',
       example.View "short" [] example.in_short_collection = Ok st'
       ∧ design.objs (dsl.heap st') !! 1 = Some names'
       ∧ names' !! "id" = Some 1
       ∧ dsl.Errors st'
         = [dsl.UnknownAttributeError "vintage"; dsl.UnknownAttributeError "vintage"]
       ∧ dsl.view st' 1 "short"
         = Some {| design.View_AttributeDefinition := Some 3; design.View_Name := "short";
                   design.View_Parent := 1 |}).
Proof.
  split.
  - edestruct (View_resolves_attributes example.run example.range_keys "default"
                 example.in_bottle 0 example.bottle (design.Object 0)) as [Hblock _].
    + intros m. reflexivity.
    + reflexivity.
    + reflexivity.
    + vm_compute. reflexivity.
    + left. vm_compute. reflexivity.
    + reflexivity.
    + edestruct (Hblock 2 [] example.view_prepared example.view_declared 3 1
                   (design.Object 0) (design.Object 1)
                   {[ "id" := 4; "vintage" := 5 ]} (Some 0))
        as (st' & names' & Hcall & Hobj & _ & Hfound & _ & Hunknown & _ & Hview & _).
      * vm_compute. reflexivity.
      * vm_compute. reflexivity.
      * vm_compute. reflexivity.
      * vm_compute. reflexivity.
      * vm_compute. reflexivity.
      * vm_compute. reflexivity.
      * left. split; [vm_compute; reflexivity|eauto].
      * vm_compute. eauto.
      * exists st', names'. split; [exact Hcall|]. split; [exact Hobj|].
        split; [apply Hfound; [apply elem_of_dom; eexists|]; vm_compute; reflexivity|].
        split; [reflexivity|].
        split; [|exact Hview].
        apply Hunknown; [apply elem_of_dom; eexists; vm_compute; reflexivity
                        |vm_compute; reflexivity|discriminate].
  - edestruct (View_resolves_attributes example.run example.range_keys "short"
                 example.in_short_collection 1
                 (default example.bottle (dsl.mediaType example.in_short_collection 1))
                 (design.Array (Some 7))) as [_ Hinherit].
    + intros m. reflexivity.
    + reflexivity.
    + vm_compute. reflexivity.
    + vm_compute. reflexivity.
    + right. vm_compute. split; reflexivity.
    + vm_compute. reflexivity.
    + edestruct (Hinherit 7 0 3 1
                   {| design.Type_ := Some (design.MediaTypeRef 0);
                      design.Reference := None; design.View := "" |}
                   {| design.View_AttributeDefinition := Some 3;
                      design.View_Name := "short"; design.View_Parent := 0 |}
                   (design.Object 1) {[ "id" := 1; "vintage" := 5 ]} (Some 0))
        as (st' & names' & Hcall & Hobj & _ & Hfound & _ & _ & _ & Hview & _).
      * vm_compute. reflexivity.
      * vm_compute. reflexivity.
      * reflexivity.
      * vm_compute. reflexivity.
      * reflexivity.
      * vm_compute. reflexivity.
      * vm_compute. reflexivity.
      * vm_compute. reflexivity.
      * vm_compute. reflexivity.
      * exists st', names'. split; [exact Hcall|]. split; [exact Hobj|].
        split; [apply Hfound; [apply elem_of_dom; eexists|]; vm_compute; reflexivity|].
        split; [|exact Hview].
        change (dsl.Errors st') with (dsl.Errors (example.after (Ok st'))).
        rewrite <- Hcall.
        vm_compute. reflexivity.
Defined.

(** C5 on the collection of bottles: [View("default")] without a block
    stores a view on the attribute definition of the view "default" of the
    bottle, at 3, and [View("tiny")], a view the bottle does not have, is
    reported as unknown. *)
Lemma View_inherited_from_element_witness :
  (∃ st',
     example.View "default" [] example.in_collection = Ok st'
     ∧ dsl.view st' 1 "default"
       = Some {| design.View_AttributeDefinition := Some 3;
                 design.View_Name := "default"; design.View_Parent := 1 |})
  ∧ (∃ st',
       example.View "tiny" [] example.in_collection = Ok st'
       ∧ dsl.Errors st' = [dsl.UnknownViewError "tiny"]
       ∧ dsl.view st' 1 "tiny" = None).
Proof.
  split.
  - edestruct (View_inherited_from_element example.run example.range_keys "default"
                 example.in_collection 1 8 0) as [Hcopy _].
    + reflexivity.
    + vm_compute. reflexivity.
    + vm_compute. reflexivity.
    + vm_compute. reflexivity.
    + vm_compute. reflexivity.
    + reflexivity.
    + vm_compute. eauto.
    + vm_compute. reflexivity.
    + edestruct Hcopy with (at_ := 3) as (st' & Hcall & Hview & _).
      * vm_compute. reflexivity.
      * reflexivity.
      * vm_compute. reflexivity.
      * vm_compute. reflexivity.
      * intros o [= <-]. vm_compute. eauto.
      * vm_compute. reflexivity.
      * exists st'. split; [exact Hcall|exact Hview].
  - edestruct (View_inherited_from_element example.run example.range_keys "tiny"
                 example.in_collection 1 8 0) as [_ Hunknown].
    + reflexivity.
    + vm_compute. reflexivity.
    + vm_compute. reflexivity.
    + vm_compute. reflexivity.
    + vm_compute. reflexivity.
    + reflexivity.
    + vm_compute. eauto.
    + vm_compute. reflexivity.
    + destruct Hunknown as (st' & Hcall & Herr & _ & _ & Hview);
        [vm_compute; reflexivity|].
      exists st'. split; [exact Hcall|]. split; [exact Herr|exact Hview].
Defined.

(** The claim C5 without its condition fails on a collection that
    already has a view "default" of its own (on the attribute definition at
    10): the call records "multiple definitions for view", no view is
    copied from the bottle (whose view "default" is on the attribute
    definition at 3), and the view of the collection stays. *)
Lemma View_inherited_duplicate_counterexample :
  dsl.current example.in_collection_with_view = Some (dsl.MediaTypeCtx 1)
  ∧ design.mediaTypeType (dsl.heap example.in_collection_with_view) 1
    = Ok (design.Array (Some 8))
  ∧ (design.Type_ <$> design.attrs (dsl.heap example.in_collection_with_view) !! 8)
    = Some (Some (design.MediaTypeRef 0))
  ∧ dsl.view example.in_collection_with_view 0 "default"
    = Some {| design.View_AttributeDefinition := Some 3;
              design.View_Name := "default"; design.View_Parent := 0 |}
  ∧ ∃ st',
      example.View "default" [] example.in_collection_with_view = Ok st'
      ∧ dsl.Errors st' = [dsl.MultipleViewDefinitions "default" "BottleCollection"]
      ∧ dsl.view st' 1 "default"
        = Some {| design.View_AttributeDefinition := Some 10;
                  design.View_Name := "default"; design.View_Parent := 1 |}
      ∧ dsl.view st' 1 "default"
        ≠ Some {| design.View_AttributeDefinition := Some 3;
                  design.View_Name := "default"; design.View_Parent := 1 |}.
Proof.
  split; [reflexivity|]. split; [vm_compute; reflexivity|].
  split; [vm_compute; reflexivity|]. split; [vm_compute; reflexivity|].
  eexists. split; [vm_compute; reflexivity|]. split; [reflexivity|].
  split; [vm_compute; reflexivity|]. vm_compute. discriminate.
Qed.

(** C6 on the bottle: [Link("origin")] and [Link("account", "tiny")]. *)
Lemma Link_default_view_and_duplicate_witness :
  (∃ st',
     dsl.Link "origin" [] example.in_bottle = Ok st'
     ∧ dsl.Errors st' = []
     ∧ dsl.link st' 0 "origin"
       = Some {| design.Link_Name := "origin"; design.Link_View := "link";
                 design.Link_Parent := 0 |})
  ∧ (∃ st',
       dsl.Link "account" ["tiny"] example.in_bottle = Ok st'
       ∧ dsl.Errors st' = []
       ∧ dsl.link st' 0 "account"
         = Some {| design.Link_Name := "account"; design.Link_View := "tiny";
                   design.Link_Parent := 0 |}).
Proof.
  split.
  - edestruct (Link_default_view_and_duplicate "origin" example.in_bottle 0)
      as [Hfresh _]; [reflexivity|reflexivity|].
    destruct Hfresh as [Hone _]; [reflexivity|]. exact Hone.
  - edestruct (Link_default_view_and_duplicate "account" example.in_bottle 0)
      as [Hfresh _]; [reflexivity|reflexivity|].
    destruct Hfresh as [_ Htwo]; [reflexivity|]. exact (Htwo "tiny").
Defined.

(** C7 on the bottle: [Link("account", "tiny", "huge")]. *)
Lemma Link_extra_views_still_registered_witness :
  ∃ st',
    dsl.Link "account" ["tiny"; "huge"] example.in_bottle = Ok st'
    ∧ dsl.Errors st' = [dsl.InvalidLinkSyntaxError "account"]
    ∧ dsl.link st' 0 "account"
      = Some {| design.Link_Name := "account"; design.Link_View := "tiny";
                design.Link_Parent := 0 |}.
Proof.
  edestruct (Link_extra_views_still_registered "account" "tiny" "huge" []
               example.in_bottle 0) as (st' & Hcall & Herr & _ & Hlink);
    [reflexivity|reflexivity|reflexivity|].
  exists st'. split; [exact Hcall|]. split; [exact Herr|exact Hlink].
Defined.

(** C8 on a media type that is a string. *)
Lemma View_scalar_rejected_witness :
  ∃ st',
    example.View "default" [1] example.in_scalar = Ok st'
    ∧ dsl.Errors st' = [dsl.ViewOnNonObject]
    ∧ dsl.heap st' = dsl.heap example.in_scalar.
Proof.
  edestruct (View_scalar_rejected example.run example.range_keys "default" [1]
               example.in_scalar 0) as (st' & Hcall & Herr & _ & Hheap & _);
    [reflexivity|vm_compute; reflexivity|vm_compute; reflexivity
    |vm_compute; reflexivity|].
  exists st'. split; [exact Hcall|]. split; [exact Herr|exact Hheap].
Defined.

(** C9 on the response "NotFound": [Media(Bottle)], [Media("text/plain")],
    [Media(404)] and [Media] of the nil pointer. *)
Lemma Media_sets_response_media_type_witness :
  (∃ st', dsl.Media (dsl.VMediaType (Some 0)) example.in_response = Ok st'
          ∧ dsl.responseMedia st' 0 = Some example.bottle_id)
  ∧ (∃ st', dsl.Media (dsl.VString "text/plain") example.in_response = Ok st'
            ∧ dsl.responseMedia st' 0 = Some "text/plain")
  ∧ (∃ st', dsl.Media (dsl.VOther "404") example.in_response = Ok st'
            ∧ dsl.Errors st' = [dsl.InvalidMediaValue "404"]
            ∧ dsl.responseMedia st' 0 = Some "")
  ∧ dsl.Media (dsl.VMediaType None) example.in_response = Panic.
Proof.
  edestruct (Media_sets_response_media_type example.in_response 0)
    as (Hhandle & Hstring & Hother & Hnil); [reflexivity|vm_compute; reflexivity|].
  split; [|split; [|split]].
  - edestruct (Hhandle 0) as (st' & Hcall & Hmedia & _); [vm_compute; reflexivity|].
    exists st'. split; [exact Hcall|exact Hmedia].
  - destruct (Hstring "text/plain") as (st' & Hcall & Hmedia & _).
    exists st'. split; [exact Hcall|exact Hmedia].
  - destruct (Hother "404") as (st' & Hcall & Herr & _ & _ & Hmedia).
    exists st'. split; [exact Hcall|]. split; [exact Herr|exact Hmedia].
  - exact Hnil.
Defined.

(** The claim C9 without its condition fails on the nil pointer to a media
    type, the value a refused declaration returns (here the bottle declared
    a second time): inside the response "NotFound", [Media] of that value
    does not return, so it neither sets the media type of the response nor
    records a diagnostic. *)
Lemma Media_nil_handle_counterexample :
  (example.MediaType example.bottle_id None example.bottle_declared).2 = None
  ∧ dsl.current example.in_response = Some (dsl.ResponseCtx 0)
  ∧ dsl.Media (dsl.VMediaType None) example.in_response = Panic
  ∧ ¬ ∃ st', dsl.Media (dsl.VMediaType None) example.in_response = Ok st'.
Proof.
  split; [vm_compute; reflexivity|]. split; [reflexivity|].
  split; [reflexivity|]. intros [st' Hcall]. discriminate Hcall.
Qed.

(** C10 on the bottle, which has no view yet: [View("default")] without a
    block. *)
Lemma View_no_block_on_object_witness :
  ∃ st',
    example.View "default" [] example.in_bottle = Ok st'
    ∧ dsl.Errors st' = []
    ∧ dsl.view st' 0 "default" = None.
Proof.
  edestruct (View_no_block_on_object example.run example.range_keys "default"
               example.in_bottle 0) as (st' & Hcall & Herr & Hview & _);
    [reflexivity|reflexivity|vm_compute; reflexivity|vm_compute; reflexivity
    |reflexivity|].
  exists st'. split; [exact Hcall|]. split; [exact Herr|exact Hview].
Defined.

(** The claim C10 without its condition fails on a bottle that has a view
    "default": the media type is an object, the call has no block,
    and a diagnostic is recorded. *)
Lemma View_no_block_duplicate_counterexample :
  dsl.current example.bottle_with_view = Some (dsl.MediaTypeCtx 0)
  ∧ design.mediaTypeType (dsl.heap example.bottle_with_view) 0 = Ok (design.Object 0)
  ∧ design.IsObject (dsl.heap example.bottle_with_view) (design.Object 0) = Ok true
  ∧ dsl.Errors example.bottle_with_view = []
  ∧ ∃ st',
      example.View "default" [] example.bottle_with_view = Ok st'
      ∧ dsl.Errors st' = [dsl.MultipleViewDefinitions "default" "Bottle"].
Proof.
  split; [reflexivity|]. split; [vm_compute; reflexivity|].
  split; [vm_compute; reflexivity|]. split; [reflexivity|].
  eexists. split; [vm_compute; reflexivity|]. reflexivity.
Qed.

(** * The further properties on the design of a bottle *)

(** X1 in a new process: the bottle is declared. *)
Lemma MediaType_registers_witness :
  ∃ st' mt d,
    example.MediaType example.bottle_id None dsl.initial = (st', Some mt)
    ∧ dsl.registry st' = {[ example.bottle_id := mt ]}
    ∧ dsl.mediaType st' mt = Some d
    ∧ design.Identifier d = example.bottle_id
    ∧ design.TypeName (design.UserTypeDefinition_ d) = "Bottle"
    ∧ design.Views d = None.
Proof.
  destruct (MediaType_registers mime.ParseMediaType mime.FormatMediaType example.Camelize
              example.bottle_id None dsl.initial)
    as (st' & mt & d & o & Hcall & _ & Hreg & Hd & Hid & Hname & _ & _ & Hviews & _);
    [reflexivity|vm_compute; reflexivity|].
  exists st', mt, d. split; [exact Hcall|]. split; [exact Hreg|]. split; [exact Hd|].
  split; [exact Hid|]. split; [exact Hname|exact Hviews].
Defined.

(** X2 inside the block of the bottle. *)
Lemma MediaType_not_top_level_witness :
  ∃ st',
    example.MediaType "application/vnd.goa.example.cork" None example.in_bottle = (st', None)
    ∧ dsl.Errors st' = [dsl.IncompatibleDSL "MediaType"]
    ∧ dsl.registry st' = dsl.registry example.in_bottle.
Proof.
  destruct (MediaType_not_top_level mime.ParseMediaType mime.FormatMediaType example.Camelize
              "application/vnd.goa.example.cork" None example.in_bottle)
    as (st' & Hcall & Herr & Hreg & _); [discriminate|].
  exists st'. split; [exact Hcall|]. split; [exact Herr|exact Hreg].
Defined.

(** X3 in a new process: the bottle declared twice, the second time in
    upper case. *)
Lemma MediaType_twice_witness :
  ∃ st1 mt st2,
    example.MediaType example.bottle_id None dsl.initial = (st1, Some mt)
    ∧ example.MediaType "Application/VND.GOA.example.bottle" None st1 = (st2, None)
    ∧ dsl.registry st2 = dsl.registry st1
    ∧ dsl.heap st2 = dsl.heap st1.
Proof.
  destruct (MediaType_twice mime.ParseMediaType mime.FormatMediaType example.Camelize
              example.bottle_id "Application/VND.GOA.example.bottle" None None dsl.initial)
    as (st1 & mt & st2 & H1 & H2 & _ & Hreg & _ & Hheap);
    [reflexivity|vm_compute; reflexivity|vm_compute; reflexivity|].
  exists st1, mt, st2. split; [exact H1|]. split; [exact H2|]. split; [exact Hreg|exact Hheap].
Defined.

(** X4 in a new process: an identifier the parser rejects gives no type
    name and uses the counter; the identifier of the bottle does not. *)
Lemma MediaType_counter_witness :
  dsl.mediaTypeCount (example.MediaType "bottle media type" None dsl.initial).1 = 1%Z
  ∧ dsl.mediaTypeCount (example.MediaType example.bottle_id None dsl.initial).1 = 0%Z.
Proof.
  split.
  - apply (MediaType_counter mime.ParseMediaType mime.FormatMediaType example.Camelize
             "bottle media type" None dsl.initial);
      [reflexivity|vm_compute; reflexivity|simpl; lia].
  - apply (MediaType_counter mime.ParseMediaType mime.FormatMediaType example.Camelize
             example.bottle_id None dsl.initial); [reflexivity|vm_compute; discriminate].
Defined.

(** X5 on the identifier of the bottle, with and without a subtype, and
    on "application/json". *)
Lemma derivedTypeName_last_segment_witness :
  dsl.derivedTypeName example.Camelize "application/vnd.goa.example.bottle/json" = "Bottle"
  ∧ dsl.derivedTypeName example.Camelize "application/vnd.goa.example.bottle" = "Bottle"
  ∧ dsl.derivedTypeName example.Camelize "bottle/json" = "Bottle".
Proof.
  apply (derivedTypeName_last_segment example.Camelize "application/vnd.goa.example"
           "bottle" "json"); reflexivity.
Defined.

Lemma bottle_registry_ok : dsl.registry_ok example.bottle_declared.
Proof.
  intros k l Hl.
  change (({[ example.bottle_id := 0 ]} : gmap string loc) !! k = Some l) in Hl.
  apply lookup_singleton_Some in Hl as [<- <-]. eexists. split; reflexivity.
Defined.

(** X6 on the declared bottle. *)
Lemma MediaType_keeps_registry_ok_witness :
  dsl.registry_ok
    (example.MediaType "application/vnd.goa.example.cork" None example.bottle_declared).1.
Proof.
  apply (MediaType_keeps_registry_ok mime.ParseMediaType mime.FormatMediaType
           example.Camelize), bottle_registry_ok.
Defined.

(** X7 on the media type a rejected identifier leaves: its identifier is
    empty and cannot be parsed. *)
Lemma CollectionOf_unparseable_witness :
  ∃ st',
    example.CollectionOf (Some 0) [1]
      (example.MediaType "bottle media type" None dsl.initial).1 = Ok (st', None)
    ∧ dsl.heap st' = dsl.heap (example.MediaType "bottle media type" None dsl.initial).1
    ∧ dsl.Design st' = dsl.Design (example.MediaType "bottle media type" None dsl.initial).1.
Proof.
  edestruct (CollectionOf_unparseable mime.ParseMediaType mime.FormatMediaType example.run 0)
    with (dsl := [1]) (st := (example.MediaType "bottle media type" None dsl.initial).1)
    as (st' & Hcall & _ & _ & Hheap & HD & _);
    [vm_compute; reflexivity|vm_compute; reflexivity|].
  exists st'. split; [exact Hcall|]. split; [exact Hheap|exact HD].
Defined.

(** X8 on the bottle. *)
Lemma CollectionOf_builds_array_witness :
  ∃ st' mt e,
    example.CollectionOf (Some 0) [] example.bottle_declared = Ok (st', Some mt)
    ∧ dsl.mediaType example.bottle_declared mt = None
    ∧ design.mediaTypeType (dsl.heap st') mt = Ok (design.Array (Some e))
    ∧ design.attrType (dsl.heap st') (Some e) = Ok (Some (design.MediaTypeRef 0))
    ∧ dsl.Errors st' = [].
Proof.
  edestruct (CollectionOf_builds_array mime.ParseMediaType mime.FormatMediaType
               example.run 0) with (st := example.bottle_declared)
    as (st' & mt & cd & e & Hcall & Hnew & _ & Hty & _ & He & _ & _ & _ & Herr & _);
    [reflexivity|vm_compute; reflexivity|reflexivity|].
  exists st', mt, e. split; [exact Hcall|]. split; [exact Hnew|]. split; [exact Hty|].
  split; [exact He|exact Herr].
Defined.

(** X9 on the bottle. *)
Lemma CollectionOf_twice_overwrites_witness :
  ∃ st1 c1 st2 c2 d1,
    example.CollectionOf (Some 0) [] example.bottle_declared = Ok (st1, Some c1)
    ∧ example.CollectionOf (Some 0) [] st1 = Ok (st2, Some c2)
    ∧ c1 ≠ c2
    ∧ dsl.mediaType st2 c1 = Some d1
    ∧ dsl.registry st2 !! design.Identifier d1 = Some c2
    ∧ dsl.Errors st2 = [].
Proof.
  edestruct (CollectionOf_twice_overwrites mime.ParseMediaType mime.FormatMediaType
               example.run 0) with (st := example.bottle_declared)
    as (st1 & c1 & st2 & c2 & d1 & d2 & H1 & H2 & Hne & _ & Hd1 & _ & _ & Hreg & Herr);
    [reflexivity|vm_compute; reflexivity|reflexivity|].
  exists st1, c1, st2, c2, d1. split; [exact H1|]. split; [exact H2|]. split; [exact Hne|].
  split; [exact Hd1|]. split; [exact Hreg|exact Herr].
Defined.

(** X10 on the bottle. *)
Lemma CollectionOf_keeps_registry_ok_witness :
  ∃ st' r,
    example.CollectionOf (Some 0) [] example.bottle_declared = Ok (st', r)
    ∧ dsl.registry_ok st'.
Proof.
  edestruct (CollectionOf_keeps_registry_ok mime.ParseMediaType mime.FormatMediaType
               example.run 0) with (st := example.bottle_declared)
    as (st' & r & Hcall & Hok); [reflexivity|reflexivity|exact bottle_registry_ok|].
  exists st', r. split; [exact Hcall|exact Hok].
Defined.

(** X11 on the bottle, which has a view "default": a second one, with a
    block, is refused. *)
Lemma View_duplicate_rejected_witness :
  ∃ st',
    example.View "default" [1] example.bottle_with_view = Ok st'
    ∧ dsl.Errors st' = [dsl.MultipleViewDefinitions "default" "Bottle"]
    ∧ dsl.heap st' = dsl.heap example.bottle_with_view.
Proof.
  edestruct (View_duplicate_rejected example.run example.range_keys "default" [1]
               example.bottle_with_view 0) as (st' & Hcall & Herr & Hheap & _);
    [reflexivity|reflexivity|vm_compute; reflexivity|left; vm_compute; reflexivity
    |vm_compute; reflexivity|].
  exists st'. split; [exact Hcall|]. split; [exact Herr|exact Hheap].
Defined.

(** X12 on the bottle: a view whose block uses [Media]. *)
Lemma View_failed_block_not_stored_witness :
  ∃ st',
    dsl.View example.blocks example.range_keys "default" [4] example.in_bottle = Ok st'
    ∧ dsl.Errors st' = [dsl.IncompatibleDSL "Media"]
    ∧ dsl.view st' 0 "default" = None.
Proof.
  eexists. split.
  - eapply (View_failed_block_not_stored example.blocks example.range_keys "default" 4 []
              example.in_bottle _ _ 0).
    + reflexivity.
    + reflexivity.
    + vm_compute. reflexivity.
    + left. vm_compute. reflexivity.
    + reflexivity.
    + vm_compute. reflexivity.
    + vm_compute. reflexivity.
  - split; vm_compute; reflexivity.
Defined.

(** X13 on the bottle: a view whose block is empty. *)
Lemma View_empty_block_panics_witness :
  example.View "default" [0] example.in_bottle = Panic.
Proof.
  eapply (View_empty_block_panics example.run example.range_keys "default" 0 []
            example.in_bottle 0).
  - intros s. reflexivity.
  - reflexivity.
  - reflexivity.
  - vm_compute. reflexivity.
  - left. vm_compute. reflexivity.
  - reflexivity.
Defined.

(** X14 on the array of strings. *)
Lemma View_no_block_on_plain_array_witness :
  ∃ st',
    example.View "default" [] example.in_strings = Ok st'
    ∧ dsl.Errors st' = []
    ∧ dsl.view st' 0 "default" = None.
Proof.
  edestruct (View_no_block_on_plain_array example.run example.range_keys "default"
               example.in_strings 0) as (st' & Hcall & Herr & Hview).
  - reflexivity.
  - reflexivity.
  - vm_compute. reflexivity.
  - vm_compute. reflexivity.
  - reflexivity.
  - right. eexists 1, _. split; [reflexivity|]. split; [vm_compute; reflexivity|].
    intros pa. discriminate.
  - exists st'. split; [exact Hcall|]. split; [exact Herr|]. rewrite Hview. reflexivity.
Defined.

(** X15 inside the attribute [id], and inside a resource. *)
Lemma View_outside_media_type_witness :
  (∃ st',
     example.View "tiny" [] example.in_attribute = Ok st'
     ∧ (design.View <$> design.attrs (dsl.heap st') !! 1) = Some "tiny"
     ∧ dsl.Errors st' = [])
  ∧ (∃ st',
       example.View "tiny" [] example.in_resource = Ok st'
       ∧ dsl.Errors st' = [dsl.IncompatibleDSL "View"]
       ∧ dsl.heap st' = dsl.heap example.in_resource).
Proof.
  split.
  - destruct (View_outside_media_type example.run example.range_keys "tiny" []
                example.in_attribute) as [Hattr _].
    edestruct (Hattr 1) as (st' & Hcall & Hattrs & _ & _ & _ & Herr);
      [reflexivity|vm_compute; reflexivity|].
    exists st'. split; [exact Hcall|]. split; [|exact Herr].
    rewrite Hattrs, lookup_insert_eq. reflexivity.
  - destruct (View_outside_media_type example.run example.range_keys "tiny" []
                example.in_resource) as [_ Hother].
    destruct Hother as (st' & Hcall & Herr & Hheap); [discriminate|discriminate|].
    exists st'. split; [exact Hcall|]. split; [exact Herr|exact Hheap].
Defined.

(** X16 inside the bottle, inside the user type, and inside a resource. *)
Lemma Reference_sets_reference_witness :
  (∃ st',
     dsl.Reference (Some (design.UserTypeRef 0)) example.in_bottle = Ok st'
     ∧ (design.Reference <$> design.attrs (dsl.heap st') !! 0)
       = Some (Some (design.UserTypeRef 0))
     ∧ (design.Type_ <$> design.attrs (dsl.heap st') !! 0)
       = Some (Some (design.Object 0)))
  ∧ (∃ st',
       dsl.Reference (Some (design.MediaTypeRef 0)) example.in_type = Ok st'
       ∧ (design.Reference <$> design.attrs (dsl.heap st') !! 1)
         = Some (Some (design.MediaTypeRef 0)))
  ∧ (∃ st',
       dsl.Reference None example.in_resource = Ok st'
       ∧ dsl.Errors st' = [dsl.IncompatibleDSL "Reference"]).
Proof.
  split; [|split].
  - destruct (Reference_sets_reference (Some (design.UserTypeRef 0)) example.in_bottle)
      as [Hmedia _].
    edestruct (Hmedia 0) as (st' & Hcall & Hattrs & _);
      [reflexivity|reflexivity|reflexivity|vm_compute; reflexivity|].
    exists st'. split; [exact Hcall|]. rewrite Hattrs, lookup_insert_eq. split; reflexivity.
  - destruct (Reference_sets_reference (Some (design.MediaTypeRef 0)) example.in_type)
      as (_ & Htype & _).
    edestruct (Htype 0) as (st' & Hcall & Hattrs & _);
      [reflexivity|vm_compute; reflexivity|reflexivity|vm_compute; reflexivity|].
    exists st'. split; [exact Hcall|]. rewrite Hattrs, lookup_insert_eq. reflexivity.
  - destruct (Reference_sets_reference None example.in_resource) as (_ & _ & Hother).
    destruct Hother as (st' & Hcall & Herr & _); [discriminate|discriminate|].
    exists st'. split; [exact Hcall|exact Herr].
Defined.

(** X17 inside the bottle. *)
Lemma TypeName_overrides_name_only_witness :
  (∃ st' d',
     dsl.TypeName "WineBottle" example.in_bottle = Ok st'
     ∧ dsl.mediaType st' 0 = Some d'
     ∧ design.TypeName (design.UserTypeDefinition_ d') = "WineBottle"
     ∧ design.Identifier d' = example.bottle_id
     ∧ dsl.registry st' = dsl.registry example.in_bottle)
  ∧ (dsl.TypeName "Flask" example.in_bottle ≫= dsl.TypeName "WineBottle")
    = dsl.TypeName "WineBottle" example.in_bottle.
Proof.
  edestruct (TypeName_overrides_name_only "WineBottle" "WineBottle" example.in_bottle 0)
    as [(st' & d' & Hcall & Hd & Hname & Hid & _ & _ & _ & _ & Hreg & _) _];
    [reflexivity|reflexivity|].
  split.
  - exists st', d'. split; [exact Hcall|]. split; [exact Hd|]. split; [exact Hname|].
    split; [exact Hid|exact Hreg].
  - edestruct (TypeName_overrides_name_only "Flask" "WineBottle" example.in_bottle 0)
      as [_ Htwice]; [reflexivity|reflexivity|]. exact Htwice.
Defined.

(** X18 inside the user type, and inside a resource. *)
Lemma TypeName_outside_media_type_witness :
  (∃ st',
     dsl.TypeName "Body" example.in_type = Ok st'
     ∧ (design.TypeName <$> design.utypes (dsl.heap st') !! 0) = Some "Body")
  ∧ (∃ st',
       dsl.TypeName "Body" example.in_resource = Ok st'
       ∧ dsl.Errors st' = [dsl.IncompatibleDSL "TypeName"]).
Proof.
  destruct (TypeName_outside_media_type "Body" example.in_type) as [Htype _].
  destruct (TypeName_outside_media_type "Body" example.in_resource) as [_ Hother].
  split.
  - edestruct (Htype 0) as (st' & Hcall & Hut & _); [reflexivity|vm_compute; reflexivity|].
    exists st'. split; [exact Hcall|]. rewrite Hut, lookup_insert_eq. reflexivity.
  - destruct Hother as (st' & Hcall & Herr & _); [discriminate|discriminate|].
    exists st'. split; [exact Hcall|exact Herr].
Defined.

(** X19 inside the bottle: [Link("account")] and [Link("origin", "tiny")]. *)
Lemma Link_two_names_witness :
  ∃ st2,
    (dsl.Link "account" [] example.in_bottle ≫= dsl.Link "origin" ["tiny"]) = Ok st2
    ∧ dsl.link st2 0 "account"
      = Some {| design.Link_Name := "account"; design.Link_View := "link";
                design.Link_Parent := 0 |}
    ∧ dsl.link st2 0 "origin"
      = Some {| design.Link_Name := "origin"; design.Link_View := "tiny";
                design.Link_Parent := 0 |}
    ∧ (dsl.Link "origin" ["tiny"] example.in_bottle ≫= dsl.Link "account" []) = Ok st2.
Proof.
  edestruct (Link_two_names "account" "origin" [] ["tiny"] example.in_bottle 0)
    as (st2 & d2 & Hcall & H1 & H2 & _ & _ & _ & _ & _ & _ & _ & Hswap);
    [reflexivity|reflexivity|reflexivity|reflexivity|discriminate|].
  exists st2. split; [exact Hcall|]. split; [exact H1|]. split; [exact H2|].
  apply Hswap; simpl; lia.
Defined.

(** X20 inside the bottle, where no response is defined, and inside the
    response "NotFound". *)
Lemma Media_outside_response_and_nil_witness :
  (∃ st',
     dsl.Media (dsl.VString "text/plain") example.in_bottle = Ok st'
     ∧ dsl.Errors st' = [dsl.IncompatibleDSL "Media"]
     ∧ dsl.heap st' = dsl.heap example.in_bottle)
  ∧ dsl.Media (dsl.VMediaType None) example.in_response = Panic
  ∧ (dsl.Media (dsl.VString "text/html") example.in_response
       ≫= dsl.Media (dsl.VString "text/plain"))
    = dsl.Media (dsl.VString "text/plain") example.in_response.
Proof.
  destruct (Media_outside_response_and_nil example.in_bottle) as (Hout & _ & _).
  destruct (Media_outside_response_and_nil example.in_response) as (_ & Hnil & Hlast).
  split; [|split].
  - apply Hout. discriminate.
  - apply (Hnil 0). reflexivity.
  - eapply (Hlast 0); [reflexivity|vm_compute; reflexivity].
Defined.

(** X21 inside a resource, and inside the bottle with an empty block. *)
Lemma Attributes_Links_run_block_witness :
  dsl.Attributes example.run (Some 1) example.in_resource
    = Ok (dsl.ReportError (dsl.IncompatibleDSL "Attributes") example.in_resource)
  ∧ dsl.Links example.run (Some 1) example.in_resource
    = Ok (dsl.ReportError (dsl.IncompatibleDSL "Links") example.in_resource)
  ∧ dsl.Attributes example.run (Some 0) example.in_bottle = Ok example.in_bottle.
Proof.
  destruct (Attributes_Links_run_block example.run (Some 1) example.in_resource)
    as [Hout _].
  destruct (Attributes_Links_run_block example.run (Some 0) example.in_bottle)
    as [_ Hin].
  split; [apply Hout; discriminate|]. split; [apply Hout; discriminate|].
  destruct (Hin 0 eq_refl) as (_ & _ & Hrun).
  rewrite (Hrun 0 _ eq_refl). reflexivity.
Defined.

(** X22 on the bottle with its view "default":
    [CollectionOf(Bottle, func() { View("default") })]. *)
Lemma CollectionOf_with_view_block_witness :
  ∃ st' c,
    dsl.CollectionOf mime.ParseMediaType mime.FormatMediaType example.blocks
      (Some 0) [3] example.bottle_done = Ok (st', Some c)
    ∧ dsl.view st' c "default"
      = Some {| design.View_AttributeDefinition := Some 3; design.View_Name := "default";
                design.View_Parent := c |}
    ∧ dsl.Errors st' = [].
Proof.
  edestruct (CollectionOf_with_view_block mime.ParseMediaType mime.FormatMediaType
               example.blocks example.range_keys "default" 3 [] 0 3 1 0)
    with (st := example.bottle_done)
    as (st' & c & cd & Hcall & _ & _ & _ & Hview & _ & Herr & _).
  - intros k. reflexivity.
  - intros s. reflexivity.
  - vm_compute. reflexivity.
  - vm_compute. reflexivity.
  - reflexivity.
  - vm_compute. reflexivity.
  - reflexivity.
  - vm_compute. reflexivity.
  - vm_compute. reflexivity.
  - vm_compute. reflexivity.
  - vm_compute. reflexivity.
  - vm_compute. reflexivity.
  - intros n Hn.
    assert (n ∈ ["id"; "links"; "href"]) as Hin.
    { apply elem_of_dom in Hn as [x Hx]. apply elem_of_map_to_list in Hx.
      apply (list_elem_of_fmap_2 fst) in Hx. exact Hx. }
    apply elem_of_cons in Hin as [->|Hin]; [right; vm_compute; eauto|].
    apply elem_of_cons in Hin as [->|Hin]; [left; reflexivity|].
    apply elem_of_cons in Hin as [->|Hin]; [right; vm_compute; eauto|].
    by apply elem_of_nil in Hin.
  - exists st', c. split; [exact Hcall|]. split; [exact Hview|exact Herr].
Defined.
